(** * Subscription tracker: a shallow embedding of [src/App.tsx] and [src/types.ts]

    The application keeps one list of customer records and derives from it
    the expiry date and status of every subscription, a filtered and sorted
    view, and a twelve-month history.  The handlers of [App.tsx] are
    embedded as functions on an explicit state; the [Date] and [JSON]
    built-ins they call are embedded after ECMA-262 (time values are integer
    milliseconds since the epoch, [None] standing for NaN / Invalid Date). *)

From Stdlib Require Import ZArith List String Ascii Bool Lia.
From Stdlib Require Import Permutation Sorted DecimalString DecimalZ DecimalPos.
Import ListNotations.

Local Open Scope string_scope.
Local Open Scope Z_scope.

(* ================================================================== *)
(** ** Time values (ECMA-262, "Time Values and Time Range") *)
(* ================================================================== *)

Module JSDate.

Definition msPerDay : Z := 86400000.

Definition Day (t : Z) : Z := t / msPerDay.
Definition TimeWithinDay (t : Z) : Z := t mod msPerDay.

Definition isLeapYear (y : Z) : bool :=
  if negb (y mod 4 =? 0) then false
  else if negb (y mod 100 =? 0) then true
  else if negb (y mod 400 =? 0) then false
  else true.

Definition DaysInYear (y : Z) : Z := if isLeapYear y then 366 else 365.

Definition DayFromYear (y : Z) : Z :=
  365 * (y - 1970) + (y - 1969) / 4 - (y - 1901) / 100 + (y - 1601) / 400.

Definition TimeFromYear (y : Z) : Z := msPerDay * DayFromYear y.

(** ECMA-262 defines [YearFromTime t] as the largest [y] with
    [TimeFromYear y <= t].  The executable form below starts from the mean
    Gregorian year length (146097 days in 400 years) and corrects by one;
    [YearFromDay_spec] shows that it is that largest [y]. *)
Definition YearFromDay (d : Z) : Z :=
  let y0 := 1970 + (400 * d) / 146097 in
  if d <? DayFromYear y0 then y0 - 1
  else if DayFromYear (y0 + 1) <=? d then y0 + 1
  else y0.

Definition YearFromTime (t : Z) : Z := YearFromDay (Day t).

Definition InLeapYear (t : Z) : bool := isLeapYear (YearFromTime t).

Definition DayWithinYear (t : Z) : Z := Day t - DayFromYear (YearFromTime t).

(** Number of days of the year that precede month [m] (0 = January). *)
Definition monthStart (leap : bool) (m : Z) : Z :=
  let l := if leap then 1 else 0 in
  if m <=? 0 then 0
  else if m =? 1 then 31
  else if m =? 2 then 59 + l
  else if m =? 3 then 90 + l
  else if m =? 4 then 120 + l
  else if m =? 5 then 151 + l
  else if m =? 6 then 181 + l
  else if m =? 7 then 212 + l
  else if m =? 8 then 243 + l
  else if m =? 9 then 273 + l
  else if m =? 10 then 304 + l
  else if m =? 11 then 334 + l
  else 365 + l.

Definition monthOfDay (leap : bool) (dwy : Z) : Z :=
  if dwy <? monthStart leap 1 then 0
  else if dwy <? monthStart leap 2 then 1
  else if dwy <? monthStart leap 3 then 2
  else if dwy <? monthStart leap 4 then 3
  else if dwy <? monthStart leap 5 then 4
  else if dwy <? monthStart leap 6 then 5
  else if dwy <? monthStart leap 7 then 6
  else if dwy <? monthStart leap 8 then 7
  else if dwy <? monthStart leap 9 then 8
  else if dwy <? monthStart leap 10 then 9
  else if dwy <? monthStart leap 11 then 10
  else 11.

Definition MonthFromTime (t : Z) : Z :=
  monthOfDay (InLeapYear t) (DayWithinYear t).

Definition DateFromTime (t : Z) : Z :=
  DayWithinYear t - monthStart (InLeapYear t) (MonthFromTime t) + 1.

(** The calendar fields of a time value: year, month index, day of month. *)
Definition fieldsOf (t : Z) : Z * Z * Z :=
  (YearFromTime t, MonthFromTime t, DateFromTime t).

Definition DaysInMonth (y m : Z) : Z :=
  monthStart (isLeapYear y) (m + 1) - monthStart (isLeapYear y) m.

(** [MakeDay year month date]: the day number of the first of month
    [month mod 12] in year [year + floor (month / 12)], plus [date - 1].
    A [date] past the end of that month runs on into the following ones. *)
Definition MakeDay (year month date : Z) : Z :=
  let ym := year + month / 12 in
  let mn := month mod 12 in
  DayFromYear ym + monthStart (isLeapYear ym) mn + date - 1.

Definition MakeDate (day time : Z) : Z := day * msPerDay + time.

(** A time value, or [None] for NaN (an Invalid Date). *)
Definition TimeValue := option Z.

Definition maxTime : Z := 8640000000000000.

Definition TimeClip (t : Z) : TimeValue :=
  if Z.abs t <=? maxTime then Some t else None.

(** The model covers the date-only ISO form [YYYY-MM-DD] that [types.ts]
    prescribes for [startDate]; ECMA-262 reads it as midnight UTC of that
    calendar date.  Every other string is taken to be unparsable (other ISO
    forms are not produced by the application's date input, and for strings
    outside the ISO grammar the result of [Date.parse] is
    implementation-defined). *)
Definition digit (c : ascii) : option Z :=
  let n := Z.of_nat (nat_of_ascii c) in
  if (48 <=? n) && (n <=? 57) then Some (n - 48) else None.

Definition isDash (c : ascii) : bool := Ascii.eqb c "-"%char.

(** The calendar date that a date-only string names: year, month index
    from 0, day of the month. *)
Definition isoDate (s : string) : option (Z * Z * Z) :=
  match list_ascii_of_string s with
  | [y1; y2; y3; y4; s1; m1; m2; s2; d1; d2] =>
      match digit y1, digit y2, digit y3, digit y4,
            digit m1, digit m2, digit d1, digit d2 with
      | Some a, Some b, Some c, Some d, Some e, Some f, Some g, Some h =>
          let y := 1000 * a + 100 * b + 10 * c + d in
          let m := 10 * e + f in
          let dd := 10 * g + h in
          if isDash s1 && isDash s2 && (1 <=? m) && (m <=? 12)
               && (1 <=? dd) && (dd <=? DaysInMonth y (m - 1))
          then Some (y, m - 1, dd)
          else None
      | _, _, _, _, _, _, _, _ => None
      end
  | _ => None
  end.

Definition parse (s : string) : TimeValue :=
  match isoDate s with
  | Some (y, m, d) => TimeClip (MakeDate (MakeDay y m d) 0)
  | None => None
  end.

Section LocalTime.

(** The host's local time zone adjustment in milliseconds, ECMA-262's
    [LocalTZA(t, isUTC)].  With [isUTC = true], [t] is an instant and the
    result is the offset of local time from UTC in effect at that instant;
    with [isUTC = false], [t] is a local time value and the result is the
    offset by which the host reads it back as an instant (around a
    daylight-saving change a local time occurs twice or not at all, and the
    host's rules choose the offset). *)
Variable LocalTZA : Z -> bool -> Z.

Definition LocalTime (t : Z) : Z := t + LocalTZA t true.
Definition UTC (t : Z) : Z := t - LocalTZA t false.

Definition getFullYear (tv : TimeValue) : option Z :=
  option_map (fun t => YearFromTime (LocalTime t)) tv.

Definition getMonth (tv : TimeValue) : option Z :=
  option_map (fun t => MonthFromTime (LocalTime t)) tv.

Definition getDate (tv : TimeValue) : option Z :=
  option_map (fun t => DateFromTime (LocalTime t)) tv.

(** [d.setMonth(m)]: the receiver's new time value.  [m = None] is a NaN
    argument, which [getMonth] of an Invalid Date produces. *)
Definition setMonth (tv : TimeValue) (m : option Z) : TimeValue :=
  match tv, m with
  | Some t0, Some m =>
      let t := LocalTime t0 in
      let newDate :=
        MakeDate (MakeDay (YearFromTime t) m (DateFromTime t))
                 (TimeWithinDay t) in
      TimeClip (UTC newDate)
  | _, _ => None
  end.

(** [d.setHours(0, 0, 0, 0)] on a valid date. *)
Definition setHoursZero (t0 : Z) : TimeValue :=
  TimeClip (UTC (MakeDate (Day (LocalTime t0)) 0)).

(** [new Date(year, month, date)]; a year in 0..99 means 1900 + year. *)
Definition newDateYMD (year month date : Z) : TimeValue :=
  let yr := if (0 <=? year) && (year <=? 99) then 1900 + year else year in
  TimeClip (UTC (MakeDate (MakeDay yr month date) 0)).

End LocalTime.

(** A zone without daylight saving: one offset from UTC at all times. *)
Definition fixedZone (offset : Z) : Z -> bool -> Z := fun _ _ => offset.

(** [a <= b], [a > b] on Date objects compare time values; any comparison
    with NaN is false. *)
Definition leTV (a b : TimeValue) : bool :=
  match a, b with Some x, Some y => x <=? y | _, _ => false end.

Definition gtTV (a b : TimeValue) : bool :=
  match a, b with Some x, Some y => y <? x | _, _ => false end.

End JSDate.

(* ================================================================== *)
(** ** [src/types.ts] *)
(* ================================================================== *)

Module Types.

Inductive SubscriptionStatus := Active | ExpiringSoon | Expired.

(** The string each enum member stands for at run time. *)
Definition statusString (s : SubscriptionStatus) : string :=
  match s with
  | Active => "Active"
  | ExpiringSoon => "Expiring Soon"
  | Expired => "Expired"
  end.

Inductive AccountType := Share | Private.

Definition accountTypeString (a : AccountType) : string :=
  match a with Share => "Share" | Private => "Private" end.

(** [Omit<Customer, 'id'>]: a customer record without its id.  Numbers
    ([monthsPaid], [amount]) are integers in the model. *)
Record CustomerFields := mkFields {
  customerName : string;
  profileName : string;
  startDate : string;
  monthsPaid : Z;
  amount : Z;
  note : string;
  netflixEmail : string;
  accountType : AccountType
}.

(** [Customer]: the fields above together with [id]. *)
Record Customer := mkCustomer {
  id : string;
  fields :> CustomerFields
}.

Record MonthlyRecord := mkMonthlyRecord {
  month : string;
  activeUsers : Z;
  totalIncome : Z
}.

Definition SubscriptionStatus_eqb (a b : SubscriptionStatus) : bool :=
  match a, b with
  | Active, Active | ExpiringSoon, ExpiringSoon | Expired, Expired => true
  | _, _ => false
  end.

End Types.

(* ================================================================== *)
(** ** Run-time values and the built-ins the component relies on *)
(* ================================================================== *)

Module JS.

(** [String(n)] for an integer [n]. *)
Definition toString (z : Z) : string :=
  DecimalString.NilZero.string_of_int (Z.to_int z).

(** [s.padStart(2, '0')]. *)
Definition padStart2 (s : string) : string :=
  match s with
  | EmptyString => "00"
  | String c EmptyString => String "0"%char s
  | _ => s
  end.

(** A JavaScript number that is an integer or NaN. *)
Definition Number := option Z.

Definition leNum (a : Number) (k : Z) : bool :=
  match a with Some x => x <=? k | None => false end.

(** [Math.ceil (a / b)] for integers [a] and [b > 0]. *)
Definition ceilDiv (a b : Z) : Z := - ((- a) / b).

(** The values a field of a processed customer can hold. *)
Inductive Value :=
| VString (s : string)
| VNumber (n : Number)
| VDate (t : JSDate.TimeValue)
| VUndefined.

(** [a < b].  Strings compare by code unit; numbers, and dates through
    their time value, compare numerically; [undefined] converts to NaN and
    NaN makes every comparison false.  The two operands of the comparator
    are the same field of two records, so operands of different kinds do
    not arise. *)
Definition lt (a b : Value) : bool :=
  match a, b with
  | VString x, VString y => String.ltb x y
  | VNumber (Some x), VNumber (Some y) => x <? y
  | VDate (Some x), VDate (Some y) => x <? y
  | _, _ => false
  end.

Definition gt (a b : Value) : bool := lt b a.

(** Two values of one kind. *)
Definition sameKind (a b : Value) : Prop :=
  match a, b with
  | VString _, VString _ | VNumber _, VNumber _ | VDate _, VDate _
  | VUndefined, VUndefined => True
  | _, _ => False
  end.

(** The values that take part in the order: every value but NaN, an
    Invalid Date and [undefined]. *)
Definition ordered (v : Value) : bool :=
  match v with
  | VString _ | VNumber (Some _) | VDate (Some _) => true
  | _ => false
  end.

Section Sort.
Context {A : Type}.
Variable comparefn : A -> A -> Z.

(** [Array.prototype.sort] is stable (ES2019): an element stays in front
    of the later elements it does not compare greater than.  The order an
    engine produces for a comparator that is not a consistent one is its
    own; on consistent comparators every stable sort returns this list. *)
Fixpoint insert (x : A) (l : list A) : list A :=
  match l with
  | [] => [x]
  | y :: l' => if comparefn x y <=? 0 then x :: l else y :: insert x l'
  end.

Fixpoint sort (l : list A) : list A :=
  match l with
  | [] => []
  | x :: l' => insert x (sort l')
  end.
End Sort.

(** A comparator agrees with a relation [R] on [x] and [y] when it puts
    [x] first only if [R x y] and [y] first only if [R y x]. *)
Definition agrees {A : Type} (comparefn : A -> A -> Z) (R : A -> A -> Prop)
    (x y : A) : Prop :=
  (comparefn x y <= 0 -> R x y) /\ (0 < comparefn x y -> R y x).

End JS.

(* ================================================================== *)
(** ** [src/App.tsx]: derived data *)
(* ================================================================== *)

Module App.
Import Types JS.

Definition SHARE_PRICE : Z := 8500.
Definition PRIVATE_PRICE : Z := 16000.

Record SubscriptionDetails := mkDetails {
  expiryDate : JSDate.TimeValue;
  daysLeft : Number;
  status : SubscriptionStatus
}.

(** An element of [processedCustomers]: the customer's own fields and the
    three computed ones. *)
Record ProcessedCustomer := mkProcessed {
  base :> Customer;
  details :> SubscriptionDetails
}.

Inductive Direction := ascending | descending.

Record SortConfig := mkSortConfig {
  key : string;
  direction : Direction
}.

(** [SubscriptionStatus | 'All'] *)
Inductive StatusFilter := AllStatuses | OnlyStatus (s : SubscriptionStatus).

Section Derived.

(** The host's time zone, as in [JSDate]. *)
Variable LocalTZA : Z -> bool -> Z.

(** [now] is the time value of [new Date()]. *)
Definition calculateSubscriptionDetails (now : Z) (customer : Customer)
  : SubscriptionDetails :=
  let startDate := JSDate.parse (startDate customer) in
  let expiryDate := startDate in
  let expiryDate :=
    JSDate.setMonth LocalTZA expiryDate
      (option_map (fun m => m + monthsPaid customer)
                  (JSDate.getMonth LocalTZA expiryDate)) in
  let today := JSDate.setHoursZero LocalTZA now in
  let timeDiff :=
    match expiryDate, today with
    | Some e, Some t => Some (e - t)
    | _, _ => None
    end in
  let daysLeft := option_map (fun d => ceilDiv d (1000 * 3600 * 24)) timeDiff in
  let status :=
    if leNum daysLeft 0 then Expired
    else if leNum daysLeft 7 then ExpiringSoon
    else Active in
  mkDetails expiryDate daysLeft status.

Definition processedCustomers (now : Z) (customers : list Customer)
  : list ProcessedCustomer :=
  map (fun customer =>
         mkProcessed customer (calculateSubscriptionDetails now customer))
      customers.

(** [new Date(today.getFullYear(), today.getMonth() - i, 1)]: the first
    day of the month [i] months before the current one. *)
Definition firstOfMonth (now : Z) (i : Z) : JSDate.TimeValue :=
  let today := Some now in
  match JSDate.getFullYear LocalTZA today, JSDate.getMonth LocalTZA today with
  | Some y, Some m => JSDate.newDateYMD LocalTZA y (m - i) 1
  | _, _ => None
  end.

(** One iteration of the loop of [historyData]: the record of the month
    [i] months before the current one. *)
Definition monthRecord (now : Z) (customers : list Customer) (i : Z)
  : MonthlyRecord :=
  let d := firstOfMonth now i in
  match JSDate.getFullYear LocalTZA d, JSDate.getMonth LocalTZA d with
  | Some year, Some month =>
      let monthString := toString year ++ "-" ++ padStart2 (toString (month + 1)) in
      let '(activeUsers, totalIncome) :=
        fold_left
          (fun '(activeUsers, totalIncome) (customer : Customer) =>
             let startDate := JSDate.parse (startDate customer) in
             let expiryDate := startDate in
             let expiryDate :=
               JSDate.setMonth LocalTZA expiryDate
                 (option_map (fun m => m + monthsPaid customer)
                             (JSDate.getMonth LocalTZA expiryDate)) in
             let monthStartDate := JSDate.newDateYMD LocalTZA year month 1 in
             let monthEndDate := JSDate.newDateYMD LocalTZA year (month + 1) 0 in
             if JSDate.leTV startDate monthEndDate
                && JSDate.gtTV expiryDate monthStartDate
             then
               let price :=
                 match accountType customer with
                 | Private => PRIVATE_PRICE
                 | Share => SHARE_PRICE
                 end in
               (activeUsers + 1, totalIncome + price)
             else (activeUsers, totalIncome))
          customers (0, 0) in
      mkMonthlyRecord monthString activeUsers totalIncome
  | _, _ =>
      (* [d] is an Invalid Date: year and month are NaN, the two month
         bounds are invalid and no comparison succeeds *)
      mkMonthlyRecord "NaN-NaN" 0 0
  end.

Definition historyData (now : Z) (customers : list Customer)
  : list MonthlyRecord :=
  map (monthRecord now customers) [11; 10; 9; 8; 7; 6; 5; 4; 3; 2; 1; 0].

End Derived.

(** The expiry date that [calculateSubscriptionDetails] and the loop of
    [historyData] both compute from a customer. *)
Definition expiryOf (LocalTZA : Z -> bool -> Z) (customer : Customer)
  : JSDate.TimeValue :=
  let start := JSDate.parse (startDate customer) in
  JSDate.setMonth LocalTZA start
    (option_map (fun m => m + monthsPaid customer)
                (JSDate.getMonth LocalTZA start)).

(** The test of the loop of [historyData] for the month [month] of [year]:
    a comparison of instants, the start date as parsed (midnight UTC) and
    the two month bounds at local midnight. *)
Definition overlapsMonth (LocalTZA : Z -> bool -> Z) (year month : Z)
    (customer : Customer) : bool :=
  let monthStartDate := JSDate.newDateYMD LocalTZA year month 1 in
  let monthEndDate := JSDate.newDateYMD LocalTZA year (month + 1) 0 in
  JSDate.leTV (JSDate.parse (startDate customer)) monthEndDate
  && JSDate.gtTV (expiryOf LocalTZA customer) monthStartDate.

(** [c[key]] on a processed customer. *)
Definition getField (key : string) (c : ProcessedCustomer) : Value :=
  if (key =? "id")%string then VString (id c)
  else if (key =? "customerName")%string then VString (customerName c)
  else if (key =? "profileName")%string then VString (profileName c)
  else if (key =? "startDate")%string then VString (startDate c)
  else if (key =? "monthsPaid")%string then VNumber (Some (monthsPaid c))
  else if (key =? "amount")%string then VNumber (Some (amount c))
  else if (key =? "note")%string then VString (note c)
  else if (key =? "netflixEmail")%string then VString (netflixEmail c)
  else if (key =? "accountType")%string
       then VString (accountTypeString (accountType c))
  else if (key =? "expiryDate")%string then VDate (expiryDate c)
  else if (key =? "daysLeft")%string then VNumber (daysLeft c)
  else if (key =? "status")%string then VString (statusString (status c))
  else VUndefined.

(** The comparator handed to [sort]. *)
Definition compareBy (sortConfig : SortConfig) (a b : ProcessedCustomer) : Z :=
  let valA := getField (key sortConfig) a in
  let valB := getField (key sortConfig) b in
  let comparison :=
    if gt valA valB then 1
    else if lt valA valB then -1
    else 0 in
  match direction sortConfig with
  | ascending => comparison
  | descending => - comparison
  end.

Definition displayCustomers (processedCustomers : list ProcessedCustomer)
    (filterStatus : StatusFilter) (filterEmail : string)
    (sortConfig : SortConfig) : list ProcessedCustomer :=
  let filteredCustomers := processedCustomers in
  let filteredCustomers :=
    match filterStatus with
    | OnlyStatus s =>
        filter (fun c : ProcessedCustomer => SubscriptionStatus_eqb (status c) s)
               filteredCustomers
    | AllStatuses => filteredCustomers
    end in
  let filteredCustomers :=
    if negb (filterEmail =? "All")%string
    then filter (fun c : ProcessedCustomer => (netflixEmail c =? filterEmail)%string)
                filteredCustomers
    else filteredCustomers in
  let filteredCustomers :=
    if negb (key sortConfig =? "")%string
    then sort (compareBy sortConfig) filteredCustomers
    else filteredCustomers in
  filteredCustomers.

(* ------------------------------------------------------------------ *)
(** *** State and event handlers *)

(** The component's state: one field per [useState] cell the handlers
    below touch.  [alerts] collects the messages passed to [alert]. *)
Record AppState := mkState {
  customers : list Customer;
  netflixEmails : list string;
  filterStatus : StatusFilter;
  filterEmail : string;
  sortConfig : SortConfig;
  isCustomerModalOpen : bool;
  isEmailModalOpen : bool;
  isImportModalOpen : bool;
  alerts : list string
}.

Definition setCustomers (f : list Customer -> list Customer) (st : AppState)
  : AppState :=
  mkState (f (customers st)) (netflixEmails st) (filterStatus st)
          (filterEmail st) (sortConfig st) (isCustomerModalOpen st)
          (isEmailModalOpen st) (isImportModalOpen st) (alerts st).

Definition setNetflixEmails (v : list string) (st : AppState) : AppState :=
  mkState (customers st) v (filterStatus st) (filterEmail st) (sortConfig st)
          (isCustomerModalOpen st) (isEmailModalOpen st)
          (isImportModalOpen st) (alerts st).

Definition setSortConfig (v : SortConfig) (st : AppState) : AppState :=
  mkState (customers st) (netflixEmails st) (filterStatus st) (filterEmail st)
          v (isCustomerModalOpen st) (isEmailModalOpen st)
          (isImportModalOpen st) (alerts st).

Definition setIsCustomerModalOpen (v : bool) (st : AppState) : AppState :=
  mkState (customers st) (netflixEmails st) (filterStatus st) (filterEmail st)
          (sortConfig st) v (isEmailModalOpen st) (isImportModalOpen st)
          (alerts st).

Definition setIsEmailModalOpen (v : bool) (st : AppState) : AppState :=
  mkState (customers st) (netflixEmails st) (filterStatus st) (filterEmail st)
          (sortConfig st) (isCustomerModalOpen st) v (isImportModalOpen st)
          (alerts st).

Definition setIsImportModalOpen (v : bool) (st : AppState) : AppState :=
  mkState (customers st) (netflixEmails st) (filterStatus st) (filterEmail st)
          (sortConfig st) (isCustomerModalOpen st) (isEmailModalOpen st) v
          (alerts st).

Definition alert (msg : string) (st : AppState) : AppState :=
  mkState (customers st) (netflixEmails st) (filterStatus st) (filterEmail st)
          (sortConfig st) (isCustomerModalOpen st) (isEmailModalOpen st)
          (isImportModalOpen st) (alerts st ++ [msg])%list.

Definition Direction_eqb (a b : Direction) : bool :=
  match a, b with
  | ascending, ascending | descending, descending => true
  | _, _ => false
  end.

Definition handleSort (key' : string) (st : AppState) : AppState :=
  let direction' :=
    if (key (sortConfig st) =? key')%string
       && Direction_eqb (direction (sortConfig st)) ascending
    then descending
    else ascending in
  setSortConfig (mkSortConfig key' direction') st.

(** [confirmed] is the answer of [window.confirm]. *)
Definition handleDeleteCustomer (confirmed : bool) (id' : string)
    (st : AppState) : AppState :=
  if confirmed
  then setCustomers
         (fun _ => filter (fun c : Customer => negb (id c =? id')%string)
                          (customers st)) st
  else st.

(** [Omit<Customer, 'id'> | Customer]: the test ['id' in customerData]
    tells the two apart. *)
Inductive CustomerData :=
| WithId (c : Customer)
| WithoutId (c : CustomerFields).

(** [now] is the time value [new Date().getTime()] reads. *)
Definition handleSaveCustomer (now : Z) (customerData : CustomerData)
    (st : AppState) : AppState :=
  let st' :=
    match customerData with
    | WithId customerData =>
        setCustomers
          (fun _ => map (fun c : Customer =>
                           if (id c =? id customerData)%string
                           then customerData else c)
                        (customers st)) st
    | WithoutId customerData =>
        let newCustomer := mkCustomer (toString now) customerData in
        setCustomers (fun _ => (customers st ++ [newCustomer])%list) st
    end in
  setIsCustomerModalOpen false st'.

Definition handleSaveEmails (updatedEmails : list string) (st : AppState)
  : AppState :=
  setIsEmailModalOpen false (setNetflixEmails updatedEmails st).

(** A row handed over by the import dialog: the optional fields may be
    missing ([None]). *)
Record ImportRow := mkRow {
  row_customerName : string;
  row_startDate : string;
  row_monthsPaid : Z;
  row_profileName : option string;
  row_amount : option Z;
  row_note : option string;
  row_netflixEmail : option string;
  row_accountType : option AccountType
}.

(** [v || d] on an optional string: the empty string is falsy too. *)
Definition orString (v : option string) (d : string) : string :=
  match v with
  | Some s => if (s =? "")%string then d else s
  | None => d
  end.

(** [v || d] on an optional number: zero is falsy too. *)
Definition orNumber (v : option Z) (d : Z) : Z :=
  match v with
  | Some n => if n =? 0 then d else n
  | None => d
  end.

Definition orAccountType (v : option AccountType) (d : AccountType)
  : AccountType :=
  match v with Some a => a | None => d end.

(** [l.map((c, index) => f c index)], counting from [index]. *)
Fixpoint mapIndexed {A B : Type} (f : A -> nat -> B) (index : nat)
    (l : list A) : list B :=
  match l with
  | [] => []
  | c :: l' => f c index :: mapIndexed f (S index) l'
  end.

(** [clock index] is the time value [new Date().getTime()] reads while row
    [index] is converted. *)
Definition handleImportCustomers (clock : nat -> Z)
    (importedCustomers : list ImportRow) (st : AppState) : AppState :=
  let customersToAdd :=
    mapIndexed
      (fun c index =>
         mkCustomer
           (toString (clock index) ++ "-" ++ toString (Z.of_nat index))
           (mkFields (row_customerName c)
                     (orString (row_profileName c) "")
                     (row_startDate c)
                     (row_monthsPaid c)
                     (orNumber (row_amount c) 0)
                     (orString (row_note c) "")
                     (orString (row_netflixEmail c) "")
                     (orAccountType (row_accountType c) Share)))
      0%nat importedCustomers in
  let st := setCustomers (fun prev => (prev ++ customersToAdd)%list) st in
  let st := setIsImportModalOpen false st in
  alert (toString (Z.of_nat (List.length customersToAdd))
           ++ " customer(s) have been imported successfully.") st.

End App.

(* ================================================================== *)
(** ** [src/App.tsx]: persisted state *)
(* ================================================================== *)

Module Persistence.
Import Types JS App.

(** What [JSON.parse] returns.  An object is the list of its properties in
    enumeration order. *)
#[local] Set Warnings "-register-all".
Inductive JSON :=
| JNull
| JBool (b : bool)
| JNumber (n : Z)
| JString (s : string)
| JArray (l : list JSON)
| JObject (props : list (string * JSON)).

Definition Props := list (string * JSON).

(** [o[k]]; [None] is [undefined]. *)
Fixpoint getProp (k : string) (o : Props) : option JSON :=
  match o with
  | [] => None
  | (k', v) :: o' => if (k' =? k)%string then Some v else getProp k o'
  end.

(** [o[k] = v]: an existing property keeps its place, a new one goes last. *)
Fixpoint setProp (k : string) (v : JSON) (o : Props) : Props :=
  match o with
  | [] => [(k, v)]
  | (k', v') :: o' =>
      if (k' =? k)%string then (k, v) :: o' else (k', v') :: setProp k v o'
  end.

(** [delete o[k]] *)
Definition deleteProp (k : string) (o : Props) : Props :=
  filter (fun p => negb (fst p =? k)%string) o.

Definition truthy (v : option JSON) : bool :=
  match v with
  | None | Some JNull => false
  | Some (JBool b) => b
  | Some (JNumber n) => negb (n =? 0)
  | Some (JString s) => negb (s =? "")%string
  | Some (JArray _) | Some (JObject _) => true
  end.

(** [a || b] *)
Definition or (a b : option JSON) : option JSON := if truthy a then a else b.

(** [a || d] where [d] is a literal. *)
Definition orDefault (a : option JSON) (d : JSON) : JSON :=
  match or a (Some d) with Some v => v | None => d end.

(** [c.k]: reading a property of [null] throws a TypeError ([None]);
    numbers, booleans, strings and arrays have none of the properties read
    here. *)
Definition readProp (c : JSON) (k : string) : option (option JSON) :=
  match c with
  | JNull => None
  | JObject o => Some (getProp k o)
  | _ => Some None
  end.

(** The properties [{...c}] copies: those of an object, the indexed
    characters of a string, the indexed elements of an array. *)
Definition spread (c : JSON) : Props :=
  match c with
  | JObject o => o
  | JString s =>
      mapIndexed (fun ch i => (toString (Z.of_nat i), JString (String ch "")))
                 0%nat (list_ascii_of_string s)
  | JArray l => mapIndexed (fun v i => (toString (Z.of_nat i), v)) 0%nat l
  | _ => []
  end.

(** The callback of [parsedCustomers.map] in the initializer of
    [customers]; [None] when it throws. *)
Definition migrate (c : JSON) : option JSON :=
  match readProp c "profileName", readProp c "note",
        readProp c "contact", readProp c "accountType" with
  | Some c_profileName, Some c_note, Some c_contact, Some c_accountType =>
      let newCustomer := spread c in
      let newCustomer :=
        setProp "profileName" (orDefault c_profileName (JString ""))
                newCustomer in
      let newCustomer :=
        setProp "note" (orDefault (or c_note c_contact) (JString ""))
                newCustomer in
      let newCustomer :=
        setProp "accountType"
                (orDefault c_accountType (JString (accountTypeString Share)))
                newCustomer in
      let newCustomer := deleteProp "contact" newCustomer in
      Some (JObject newCustomer)
  | _, _, _, _ => None
  end.

(** The result of the migration, from the properties copied and the three
    values read. *)
Definition migrated (props : Props) (p n ct a : option JSON) : Props :=
  deleteProp "contact"
    (setProp "accountType" (orDefault a (JString (accountTypeString Share)))
       (setProp "note" (orDefault (or n ct) (JString ""))
          (setProp "profileName" (orDefault p (JString "")) props))).

(** [l.map(f)] where [f] may throw. *)
Fixpoint mapThrowing {A B : Type} (f : A -> option B) (l : list A)
  : option (list B) :=
  match l with
  | [] => Some []
  | x :: l' =>
      match f x with
      | Some y =>
          match mapThrowing f l' with
          | Some ys => Some (y :: ys)
          | None => None
          end
      | None => None
      end
  end.

Inductive Error := SyntaxError | TypeError.

(** A call of [console.error (message, error)]. *)
Record LogEntry := mkLog {
  message : string;
  error : Error
}.

Definition defaultEmails : JSON :=
  JArray [JString "netflix1@gmail.com"; JString "netflix2@gmail.com"].

(** [localStorage] *)
Definition Storage := string -> option string.

Definition getItem (k : string) (s : Storage) : option string := s k.

Definition setItem (k v : string) (s : Storage) : Storage :=
  fun k' => if (k' =? k)%string then Some v else s k'.

(** The object a customer record is at run time. *)
Definition customerObj (c : Customer) : JSON :=
  JObject
    [("id", JString (id c));
     ("customerName", JString (customerName c));
     ("profileName", JString (profileName c));
     ("startDate", JString (startDate c));
     ("monthsPaid", JNumber (monthsPaid c));
     ("amount", JNumber (amount c));
     ("note", JString (note c));
     ("netflixEmail", JString (netflixEmail c));
     ("accountType", JString (accountTypeString (accountType c)))].

Section Codec.

(** [JSON.parse] ([None] when it throws a SyntaxError) and
    [JSON.stringify], the platform's. *)
Variable JSON_parse : string -> option JSON.
Variable JSON_stringify : JSON -> string.

(** The initializer of the [customers] state: the initial list and what
    was written to the console. *)
Definition initCustomers (storage : Storage) : list JSON * list LogEntry :=
  let failed e :=
    ([], [mkLog "Failed to parse customers from localStorage" e]) in
  let savedCustomers := getItem "customers" storage in
  match savedCustomers with
  | Some text =>
      if negb (text =? "")%string then
        match JSON_parse text with
        | Some (JArray parsedCustomers) =>
            match mapThrowing migrate parsedCustomers with
            | Some l => (l, [])
            | None => failed TypeError
            end
        | Some _ => failed TypeError   (* [.map] is not a function *)
        | None => failed SyntaxError
        end
      else ([], [])
  | None => ([], [])
  end.

(** The initializer of the [netflixEmails] state. *)
Definition initNetflixEmails (storage : Storage) : JSON * list LogEntry :=
  let savedEmails := getItem "netflixEmails" storage in
  match savedEmails with
  | Some text =>
      if negb (text =? "")%string then
        match JSON_parse text with
        | Some v => (v, [])
        | None =>
            (defaultEmails,
             [mkLog "Failed to parse emails from localStorage" SyntaxError])
        end
      else (defaultEmails, [])
  | None => (defaultEmails, [])
  end.

(** The two persistence effects. *)
Definition persistCustomers (customers : list Customer) (storage : Storage)
  : Storage :=
  setItem "customers" (JSON_stringify (JArray (map customerObj customers)))
          storage.

Definition persistNetflixEmails (netflixEmails : list string)
    (storage : Storage) : Storage :=
  setItem "netflixEmails" (JSON_stringify (JArray (map JString netflixEmails)))
          storage.

End Codec.

End Persistence.

(* ================================================================== *)
(** ** A reference codec

    A printer and a parser for the fragment of JSON the application
    writes: integers, strings, arrays and objects without insignificant
    white space on output.  It instantiates the platform codec that
    [Persistence] is parametric in when the theorems are exercised on
    concrete stored texts. *)
(* ================================================================== *)

Module RefCodec.
Import JS Persistence.

Local Open Scope char_scope.
Local Open Scope list_scope.

Definition quote : ascii := "034".
Definition backslash : ascii := "\".

Fixpoint escape (cs : list ascii) : list ascii :=
  match cs with
  | [] => []
  | c :: cs' =>
      if Ascii.eqb c quote || Ascii.eqb c backslash
      then backslash :: c :: escape cs'
      else c :: escape cs'
  end.

Definition printString (s : string) : list ascii :=
  quote :: escape (list_ascii_of_string s) ++ [quote].

Fixpoint print (v : JSON) : list ascii :=
  match v with
  | JNull => list_ascii_of_string "null"
  | JBool true => list_ascii_of_string "true"
  | JBool false => list_ascii_of_string "false"
  | JNumber n => list_ascii_of_string (toString n)
  | JString s => printString s
  | JArray l =>
      let fix elems (l : list JSON) : list ascii :=
        match l with
        | [] => []
        | [x] => print x
        | x :: l' => print x ++ "," :: elems l'
        end in
      "[" :: elems l ++ ["]"]
  | JObject o =>
      let fix members (o : list (string * JSON)) : list ascii :=
        match o with
        | [] => []
        | [(k, x)] => printString k ++ ":" :: print x
        | (k, x) :: o' => printString k ++ ":" :: print x ++ "," :: members o'
        end in
      "{" :: members o ++ ["}"]
  end.

Definition stringify (v : JSON) : string := string_of_list_ascii (print v).

Definition isSpace (c : ascii) : bool :=
  Ascii.eqb c " " || Ascii.eqb c "009" || Ascii.eqb c "010" || Ascii.eqb c "013".

Fixpoint skipSpace (cs : list ascii) : list ascii :=
  match cs with
  | c :: cs' => if isSpace c then skipSpace cs' else cs
  | [] => []
  end.

(** The characters of a string literal after its opening quote. *)
Fixpoint readString (cs : list ascii) : option (list ascii * list ascii) :=
  match cs with
  | [] => None
  | c :: cs' =>
      if Ascii.eqb c quote then Some ([], cs')
      else if Ascii.eqb c backslash then
        match cs' with
        | e :: cs'' =>
            if Ascii.eqb e quote || Ascii.eqb e backslash || Ascii.eqb e "/"
            then option_map (fun '(s, r) => (e :: s, r)) (readString cs'')
            else None
        | [] => None
        end
      else if (nat_of_ascii c <? 32)%nat then None
      else option_map (fun '(s, r) => (c :: s, r)) (readString cs')
  end.

Fixpoint readDigits (acc : Z) (cs : list ascii) : Z * list ascii :=
  match cs with
  | c :: cs' =>
      match JSDate.digit c with
      | Some d => readDigits (10 * acc + d) cs'
      | None => (acc, cs)
      end
  | [] => (acc, cs)
  end.

(** An integer literal: an optional minus sign, then [0] or a digit string
    that does not start with [0]. *)
Definition readNumber (cs : list ascii) : option (Z * list ascii) :=
  let '(neg, ds) :=
    match cs with
    | c :: cs' => if Ascii.eqb c "-" then (true, cs') else (false, cs)
    | [] => (false, cs)
    end in
  match ds with
  | c :: ds' =>
      match JSDate.digit c with
      | Some d =>
          let '(n, r) := if (d =? 0)%Z then (0, ds') else readDigits d ds' in
          Some (if neg then - n else n, r)
      | None => None
      end
  | [] => None
  end.

Fixpoint readValue (fuel : nat) (cs : list ascii) {struct fuel}
  : option (JSON * list ascii) :=
  match fuel with
  | O => None
  | S fuel =>
      match skipSpace cs with
      | "n" :: "u" :: "l" :: "l" :: r => Some (JNull, r)
      | "t" :: "r" :: "u" :: "e" :: r => Some (JBool true, r)
      | "f" :: "a" :: "l" :: "s" :: "e" :: r => Some (JBool false, r)
      | "034" :: r =>
          option_map (fun '(s, r') => (JString (string_of_list_ascii s), r'))
                     (readString r)
      | "[" :: r =>
          match skipSpace r with
          | "]" :: r' => Some (JArray [], r')
          | _ => option_map (fun '(l, r') => (JArray l, r')) (readElems fuel r)
          end
      | "{" :: r =>
          match skipSpace r with
          | "}" :: r' => Some (JObject [], r')
          | _ => option_map (fun '(o, r') => (JObject o, r')) (readMembers fuel r)
          end
      | r => option_map (fun '(n, r') => (JNumber n, r')) (readNumber r)
      end
  end
with readElems (fuel : nat) (cs : list ascii) {struct fuel}
  : option (list JSON * list ascii) :=
  match fuel with
  | O => None
  | S fuel =>
      match readValue fuel cs with
      | Some (v, r) =>
          match skipSpace r with
          | "," :: r' =>
              option_map (fun '(l, r'') => (v :: l, r'')) (readElems fuel r')
          | "]" :: r' => Some ([v], r')
          | _ => None
          end
      | None => None
      end
  end
with readMembers (fuel : nat) (cs : list ascii) {struct fuel}
  : option (list (string * JSON) * list ascii) :=
  match fuel with
  | O => None
  | S fuel =>
      match skipSpace cs with
      | "034" :: r =>
          match readString r with
          | Some (k, r1) =>
              match skipSpace r1 with
              | ":" :: r2 =>
                  match readValue fuel r2 with
                  | Some (v, r3) =>
                      let k := string_of_list_ascii k in
                      match skipSpace r3 with
                      | "," :: r4 =>
                          option_map
                            (fun '(o, r5) =>
                               (* a repeated key keeps its first place and
                                  its last value *)
                               let v' :=
                                 match getProp k o with
                                 | Some w => w
                                 | None => v
                                 end in
                               ((k, v') :: deleteProp k o, r5))
                            (readMembers fuel r4)
                      | "}" :: r4 => Some ([(k, v)], r4)
                      | _ => None
                      end
                  | None => None
                  end
              | _ => None
              end
          | None => None
          end
      | _ => None
      end
  end.

Definition parse (text : string) : option JSON :=
  let cs := list_ascii_of_string text in
  match readValue (2 * List.length cs + 2)%nat cs with
  | Some (v, r) =>
      match skipSpace r with
      | [] => Some v
      | _ => None
      end
  | None => None
  end.

End RefCodec.

(* ================================================================== *)
(** ** [src/App.tsx]: the theme *)
(* ================================================================== *)

Module ThemeState.
Import Persistence.

Local Open Scope list_scope.

Inductive Theme := light | dark.

Definition themeString (t : Theme) : string :=
  match t with light => "light" | dark => "dark" end.

(** The initializer of the [theme] state.  [prefersDark] tells whether
    [window.matchMedia] exists and its query [(prefers-color-scheme: dark)]
    matches. *)
Definition initTheme (storage : Storage) (prefersDark : bool) : Theme :=
  let savedTheme := getItem "theme" storage in
  match savedTheme with
  | Some s =>
      if (s =? "dark")%string then dark
      else if (s =? "light")%string then light
      else if prefersDark then dark else light
  | None => if prefersDark then dark else light
  end.

(** [classList.add (token)] and [classList.remove (token)] on the class
    tokens of an element. *)
Definition classListAdd (token : string) (classList : list string)
  : list string :=
  if existsb (String.eqb token) classList then classList
  else classList ++ [token].

Definition classListRemove (token : string) (classList : list string)
  : list string :=
  filter (fun c => negb (c =? token)%string) classList.

(** The effect that applies the theme: the class tokens of the document
    root and the store after it. *)
Definition themeEffect (theme : Theme) (root : list string) (storage : Storage)
  : list string * Storage :=
  (match theme with
   | dark => classListAdd "dark" root
   | light => classListRemove "dark" root
   end,
   setItem "theme" (themeString theme) storage).

Definition handleToggleTheme (prevTheme : Theme) : Theme :=
  match prevTheme with light => dark | dark => light end.

End ThemeState.

(* ================================================================== *)
(** ** The specification's own descriptions

    Definitions written after the words of the specification, to compare
    with the ones embedded from the code. *)
(* ================================================================== *)

Module Spec.
Import Types App.

(** "startDate shifted forward by monthsPaid calendar months, with
    month-overflow normalization", on calendar fields (year, month index
    from 0, day of the month): the month index advances by [n], whole
    years carry into the year, and a day the target month does not have
    runs on into the month after it. *)
Definition addMonths (ymd : Z * Z * Z) (n : Z) : Z * Z * Z :=
  let '(y, m, d) := ymd in
  let y' := y + (m + n) / 12 in
  let m' := (m + n) mod 12 in
  if d <=? JSDate.DaysInMonth y' m' then (y', m', d)
  else (y', m' + 1, d - JSDate.DaysInMonth y' m').

(** Calendar dates (year, month index, day of the month) in their order. *)
Definition dateLe (a b : Z * Z * Z) : bool :=
  let '(y1, m1, d1) := a in
  let '(y2, m2, d2) := b in
  (y1 <? y2) || ((y1 =? y2) && ((m1 <? m2) || ((m1 =? m2) && (d1 <=? d2)))).

Definition dateLt (a b : Z * Z * Z) : bool := negb (dateLe b a).

(** "startDate <= monthEnd AND expiryDate > monthStart" on calendar dates,
    the month running from its first day to its last day. *)
Definition activeInMonth (start expiry : Z * Z * Z) (year month : Z) : bool :=
  dateLe start (year, month, JSDate.DaysInMonth year month)
  && dateLt (year, month, 1) expiry.

(** "sum a flat per-account-type price (Share vs Private) for each active
    customer". *)
Definition price (customer : Customer) : Z :=
  match accountType customer with
  | Private => App.PRIVATE_PRICE
  | Share => App.SHARE_PRICE
  end.

Definition sum (l : list Z) : Z := fold_right Z.add 0 l.

(** "status filter (status value or 'all')": the status predicate of the
    view. *)
Definition passesStatus (f : App.StatusFilter) (c : App.ProcessedCustomer)
  : bool :=
  match f with
  | App.AllStatuses => true
  | App.OnlyStatus s => SubscriptionStatus_eqb (App.status c) s
  end.

(** "email filter (email string or 'all')": the email predicate. *)
Definition passesEmail (f : string) (c : App.ProcessedCustomer) : bool :=
  (f =? "All")%string || (netflixEmail c =? f)%string.

(** "unique key values": the key tells two records apart when the value
    of one is less than the value of the other. *)
Definition distinguishes (key : string) (a b : App.ProcessedCustomer) : Prop :=
  JS.lt (App.getField key a) (App.getField key b) = true \/
  JS.lt (App.getField key b) (App.getField key a) = true.

(** "sort key + direction": a view is in order when the values of the key
    strictly increase along it. *)
Definition increasing (key : string) (l : list App.ProcessedCustomer) : Prop :=
  StronglySorted
    (fun a b => JS.lt (App.getField key a) (App.getField key b) = true) l.

End Spec.

(* ================================================================== *)
(** ** Sample data *)
(* ================================================================== *)

Module Samples.
Import Types App.

Definition customerWith (id' start : string) (months : Z) : Customer :=
  mkCustomer id' (mkFields "Ann" "" start months 8500 "" "netflix1@gmail.com" Share).

(** Started 2024-01-15, two months paid. *)
Definition ann : Customer := customerWith "1" "2024-01-15" 2.

(** Started 2024-01-31, one month paid. *)
Definition bob : Customer := customerWith "2" "2024-01-31" 1.

(** Started 2024-03-01, one month paid. *)
Definition dan : Customer := customerWith "4" "2024-03-01" 1.

(** A record whose start date does not parse. *)
Definition eve : Customer := customerWith "3" "soon" 1.

(** The state of a freshly mounted component over an empty store. *)
Definition initialState : AppState :=
  mkState [] ["netflix1@gmail.com"; "netflix2@gmail.com"] AllStatuses "All"
          (mkSortConfig "expiryDate" ascending) false false false [].

Definition withCustomers (l : list Customer) : AppState :=
  setCustomers (fun _ => l) initialState.

(** The processed form of a list on 9 March 2024, in UTC. *)
Definition processedOn9March (l : list Customer) : list ProcessedCustomer :=
  processedCustomers (JSDate.fixedZone 0) 1710000000000 l.

(** An empty store, and one whose two texts are given. *)
Definition emptyStorage : Persistence.Storage := fun _ => None.

Definition storageWith (customersText emailsText : string)
  : Persistence.Storage :=
  Persistence.setItem "netflixEmails" emailsText
    (Persistence.setItem "customers" customersText emptyStorage).

(** A zone with daylight saving, after Europe/London in 2024: UTC until
    31 March 01:00 UTC, one hour ahead until 27 October 01:00 UTC, UTC
    again after it.  A local time that the change in March skips is read
    with the offset before the change, and one that occurs twice in October
    as the earlier instant. *)
Definition london2024 : Z -> bool -> Z := fun t isUTC =>
  if isUTC
  then if (1711846800000 <=? t) && (t <? 1729990800000) then 3600000 else 0
  else if (1711850400000 <=? t) && (t <? 1729994400000) then 3600000 else 0.

(** 2024-03-09T16:00:00Z and 2024-06-10T06:13:20Z. *)
Definition march9 : Z := 1710000000000.
Definition june10 : Z := 1718000000000.

End Samples.

(* ================================================================== *)
(** * Properties *)
(* ================================================================== *)

(** ** The calendar *)

Module DateFacts.
Import JSDate.

Lemma isLeapYear_true y :
  isLeapYear y = true <->
  y mod 4 = 0 /\ (y mod 100 <> 0 \/ y mod 400 = 0).
Proof.
  unfold isLeapYear.
  destruct (Z.eqb_spec (y mod 4) 0), (Z.eqb_spec (y mod 100) 0),
    (Z.eqb_spec (y mod 400) 0); simpl;
    intuition (try discriminate; try lia).
Qed.

Lemma DayFromYear_succ y : DayFromYear (y + 1) = DayFromYear y + DaysInYear y.
Proof.
  unfold DaysInYear. destruct (isLeapYear y) eqn:E.
  - apply isLeapYear_true in E. unfold DayFromYear.
    Z.div_mod_to_equations; lia.
  - assert (~ (y mod 4 = 0 /\ (y mod 100 <> 0 \/ y mod 400 = 0))) as N
      by (rewrite <- isLeapYear_true; congruence).
    unfold DayFromYear. Z.div_mod_to_equations; lia.
Qed.

Lemma DayFromYear_mono y1 y2 : y1 <= y2 -> DayFromYear y1 <= DayFromYear y2.
Proof.
  intros H. unfold DayFromYear. Z.div_mod_to_equations; lia.
Qed.

(** [YearFromDay d] is the year whose days include [d] ... *)
Lemma YearFromDay_spec d :
  DayFromYear (YearFromDay d) <= d < DayFromYear (YearFromDay d + 1).
Proof.
  unfold YearFromDay.
  set (y0 := 1970 + 400 * d / 146097).
  assert (DayFromYear (y0 - 1) <= d < DayFromYear (y0 + 1 + 1)) as B
    by (unfold DayFromYear, y0; Z.div_mod_to_equations; lia).
  destruct (Z.ltb_spec d (DayFromYear y0)).
  - replace (y0 - 1 + 1) with y0 by lia. lia.
  - destruct (Z.leb_spec (DayFromYear (y0 + 1)) d); lia.
Qed.

(** ... and the only such year. *)
Lemma YearFromDay_unique d y :
  DayFromYear y <= d < DayFromYear (y + 1) -> YearFromDay d = y.
Proof.
  intros H. pose proof (YearFromDay_spec d) as S.
  destruct (Z.lt_trichotomy (YearFromDay d) y) as [L | [E | G]]; trivial.
  - pose proof (DayFromYear_mono (YearFromDay d + 1) y ltac:(lia)). lia.
  - pose proof (DayFromYear_mono (y + 1) (YearFromDay d) ltac:(lia)). lia.
Qed.

Lemma YearFromDay_within y k :
  0 <= k < DaysInYear y -> YearFromDay (DayFromYear y + k) = y.
Proof.
  intros H. apply YearFromDay_unique. rewrite DayFromYear_succ. lia.
Qed.

Lemma Day_MakeDate day time :
  0 <= time < msPerDay -> Day (MakeDate day time) = day.
Proof.
  intros H. unfold Day, MakeDate, msPerDay in *.
  Z.div_mod_to_equations; lia.
Qed.

Lemma TimeWithinDay_MakeDate day time :
  0 <= time < msPerDay -> TimeWithinDay (MakeDate day time) = time.
Proof.
  intros H. unfold TimeWithinDay, MakeDate, msPerDay in *.
  Z.div_mod_to_equations; lia.
Qed.

Lemma TimeWithinDay_range t : 0 <= TimeWithinDay t < msPerDay.
Proof. unfold TimeWithinDay, msPerDay. apply Z.mod_pos_bound. lia. Qed.

Lemma DayWithinYear_range t : 0 <= DayWithinYear t < DaysInYear (YearFromTime t).
Proof.
  unfold DayWithinYear, YearFromTime.
  pose proof (YearFromDay_spec (Day t)) as S.
  rewrite DayFromYear_succ in S. lia.
Qed.

(** Case analysis on a month index in [0, 11]. *)
Ltac month_cases m :=
  assert (m = 0 \/ m = 1 \/ m = 2 \/ m = 3 \/ m = 4 \/ m = 5 \/ m = 6 \/
          m = 7 \/ m = 8 \/ m = 9 \/ m = 10 \/ m = 11) as month_cases_H by lia;
  repeat (destruct month_cases_H as [month_cases_H | month_cases_H]);
  subst m.

Lemma DaysInMonth_range y m : 0 <= m <= 11 -> 28 <= DaysInMonth y m <= 31.
Proof.
  intros H. unfold DaysInMonth. month_cases m;
    destruct (isLeapYear y); vm_compute; split; discriminate.
Qed.

(** Evaluate the entries of the month table at literal arguments. *)
Ltac literal v :=
  lazymatch v with Z0 => idtac | Zpos _ => idtac | Zneg _ => idtac end.

Ltac eval_monthStart :=
  repeat match goal with
    | |- context [monthStart ?l ?x] =>
        let v := eval vm_compute in (monthStart l x) in
        literal v; change (monthStart l x) with v
    | H : context [monthStart ?l ?x] |- _ =>
        let v := eval vm_compute in (monthStart l x) in
        literal v; change (monthStart l x) with v in H
    end.

(** The month of a day of the year. *)
Lemma monthOfDay_at leap m k :
  0 <= m <= 11 ->
  0 <= k < monthStart leap (m + 1) - monthStart leap m ->
  monthOfDay leap (monthStart leap m + k) = m.
Proof.
  intros Hm Hk. month_cases m; destruct leap; unfold monthOfDay;
    eval_monthStart;
    repeat match goal with
      | |- context [if ?a <? ?b then _ else _] =>
          destruct (Z.ltb_spec a b); cbv iota
      end; try reflexivity; exfalso; lia.
Qed.

Lemma monthOfDay_range (leap : bool) dwy :
  0 <= dwy < (if leap then 366 else 365) ->
  0 <= monthOfDay leap dwy <= 11 /\
  monthStart leap (monthOfDay leap dwy) <= dwy
    < monthStart leap (monthOfDay leap dwy + 1).
Proof.
  intros H. unfold monthOfDay. destruct leap; cbv iota in H;
    repeat match goal with
      | |- context [if ?a <? ?b then _ else _] =>
          destruct (Z.ltb_spec a b); cbv iota
      end; eval_monthStart; lia.
Qed.

Lemma monthStart_le_year (leap : bool) m :
  0 <= m <= 11 -> monthStart leap (m + 1) <= (if leap then 366 else 365).
Proof. intros H. month_cases m; destruct leap; eval_monthStart; lia. Qed.

Lemma monthStart_nonneg leap m : 0 <= m <= 11 -> 0 <= monthStart leap m.
Proof. intros H. month_cases m; destruct leap; eval_monthStart; lia. Qed.

(** The calendar fields of a time value built from them. *)
Lemma fields_of_MakeDate y m d time :
  0 <= m <= 11 -> 1 <= d <= DaysInMonth y m -> 0 <= time < msPerDay ->
  let t := MakeDate (DayFromYear y + monthStart (isLeapYear y) m + d - 1) time in
  YearFromTime t = y /\ MonthFromTime t = m /\ DateFromTime t = d.
Proof.
  intros Hm Hd Ht t.
  assert (Day t = DayFromYear y + (monthStart (isLeapYear y) m + (d - 1))) as HD
    by (unfold t; rewrite Day_MakeDate by assumption; lia).
  pose proof (monthStart_le_year (isLeapYear y) m Hm) as Hle.
  pose proof (monthStart_nonneg (isLeapYear y) m Hm) as Hge.
  unfold DaysInMonth in Hd.
  assert (YearFromTime t = y) as HY.
  { unfold YearFromTime. rewrite HD. apply YearFromDay_within.
    unfold DaysInYear. destruct (isLeapYear y); lia. }
  assert (MonthFromTime t = m) as HM.
  { unfold MonthFromTime, InLeapYear, DayWithinYear. rewrite HY, HD.
    replace (DayFromYear y + (monthStart (isLeapYear y) m + (d - 1))
             - DayFromYear y)
      with (monthStart (isLeapYear y) m + (d - 1)) by lia.
    apply monthOfDay_at; lia. }
  repeat split; trivial.
  unfold DateFromTime, InLeapYear, DayWithinYear. rewrite HM, HY, HD. lia.
Qed.

(** Every time value has a month in [0, 11] and a date within that month. *)
Lemma fields_range t :
  0 <= MonthFromTime t <= 11 /\
  1 <= DateFromTime t <= DaysInMonth (YearFromTime t) (MonthFromTime t).
Proof.
  pose proof (DayWithinYear_range t) as R.
  unfold DateFromTime, MonthFromTime, DaysInMonth, InLeapYear, DaysInYear in *.
  pose proof (monthOfDay_range (isLeapYear (YearFromTime t)) (DayWithinYear t) R).
  lia.
Qed.

(** [MakeDay] lands on the date the specification describes. *)
Lemma MakeDay_addMonths y m d n time :
  0 <= m <= 11 -> 1 <= d <= 31 -> 0 <= time < msPerDay ->
  fieldsOf (MakeDate (MakeDay y (m + n) d) time) = Spec.addMonths (y, m, d) n.
Proof.
  intros Hm Hd Ht. unfold Spec.addMonths, MakeDay, fieldsOf.
  set (y' := y + (m + n) / 12). set (m' := (m + n) mod 12).
  assert (0 <= m' <= 11) as Hm'
    by (unfold m'; pose proof (Z.mod_pos_bound (m + n) 12); lia).
  destruct (Z.leb_spec d (DaysInMonth y' m')) as [Hle | Hgt].
  - destruct (fields_of_MakeDate y' m' d time) as (HY & HM & HD);
      try assumption; try lia.
    cbv zeta in HY, HM, HD. now rewrite HY, HM, HD.
  - pose proof (DaysInMonth_range y' m' Hm') as R.
    assert (m' <= 10) as Hdec.
    { destruct (Z.eq_dec m' 11) as [E | N]; [ | lia ].
      exfalso. rewrite E in Hgt. unfold DaysInMonth in Hgt.
      destruct (isLeapYear y'); eval_monthStart; lia. }
    pose proof (DaysInMonth_range y' (m' + 1) ltac:(lia)) as R'.
    destruct (fields_of_MakeDate y' (m' + 1) (d - DaysInMonth y' m') time)
      as (HY & HM & HD); try assumption; try lia.
    cbv zeta in HY, HM, HD.
    replace (DayFromYear y' + monthStart (isLeapYear y') m' + d - 1)
      with (DayFromYear y' + monthStart (isLeapYear y') (m' + 1)
            + (d - DaysInMonth y' m') - 1)
      by (unfold DaysInMonth; lia).
    now rewrite HY, HM, HD.
Qed.

End DateFacts.

(** ** Status and expiry *)

Module StatusFacts.
Import Types JS App JSDate DateFacts.

Lemma ceilDiv_spec a b n : 0 < b -> ceilDiv a b = n <-> (n - 1) * b < a <= n * b.
Proof.
  intros Hb. unfold ceilDiv. split.
  - intros <-. Z.div_mod_to_equations. nia.
  - intros H. Z.div_mod_to_equations. nia.
Qed.

Lemma digit_range c a : digit c = Some a -> 0 <= a <= 9.
Proof.
  unfold digit.
  destruct (Z.leb_spec 48 (Z.of_nat (nat_of_ascii c)));
    destruct (Z.leb_spec (Z.of_nat (nat_of_ascii c)) 57); simpl;
    intros [= <-]; lia.
Qed.

(** The dates that [isoDate] reads are calendar dates of the years 0 to
    9999. *)
Lemma isoDate_Some s y m d :
  isoDate s = Some (y, m, d) ->
  0 <= y <= 9999 /\ 0 <= m <= 11 /\ 1 <= d <= DaysInMonth y m.
Proof.
  unfold isoDate.
  destruct (list_ascii_of_string s) as [ | y1 [ | y2 [ | y3 [ | y4 [ | s1
    [ | m1 [ | m2 [ | s2 [ | d1 [ | d2 [ | ? ? ]]]]]]]]]]]; try discriminate.
  destruct (digit y1) as [a | ] eqn:Ha; try discriminate.
  destruct (digit y2) as [b | ] eqn:Hb; try discriminate.
  destruct (digit y3) as [c | ] eqn:Hc; try discriminate.
  destruct (digit y4) as [d' | ] eqn:Hd; try discriminate.
  destruct (digit m1) as [e | ] eqn:He; try discriminate.
  destruct (digit m2) as [f | ] eqn:Hf; try discriminate.
  destruct (digit d1) as [g | ] eqn:Hg; try discriminate.
  destruct (digit d2) as [h | ] eqn:Hh; try discriminate.
  apply digit_range in Ha, Hb, Hc, Hd, He, Hf, Hg, Hh.
  cbv zeta.
  set (Y := 1000 * a + 100 * b + 10 * c + d').
  set (M := 10 * e + f). set (D := 10 * g + h).
  assert (0 <= Y <= 9999) as HY by (unfold Y; lia).
  clearbody Y M D.
  match goal with |- (if ?c then _ else _) = _ -> _ => destruct c eqn:C end;
    try discriminate.
  repeat rewrite andb_true_iff in C.
  destruct C as (((((_ & _) & M1) & M2) & D1) & D2).
  apply Z.leb_le in M1, M2, D1, D2.
  intros [= <- <- <-]. repeat split; lia.
Qed.

(** What a parsed start date is: midnight UTC of a calendar day of a year
    in 0..9999. *)
Lemma parse_Some s t :
  parse s = Some t ->
  exists y m d,
    0 <= y <= 9999 /\ 0 <= m <= 11 /\ 1 <= d <= DaysInMonth y m /\
    t = MakeDate (MakeDay y m d) 0.
Proof.
  unfold parse. destruct (isoDate s) as [[[y m] d] | ] eqn:E; [ | discriminate ].
  apply isoDate_Some in E. destruct E as (Hy & Hm & Hd).
  unfold TimeClip.
  match goal with |- (if ?c then _ else _) = _ -> _ => destruct c end;
    try discriminate.
  intros [= <-]. exists y, m, d. auto.
Qed.

Lemma YearFromDay_bounds d a b :
  DayFromYear a <= d < DayFromYear b -> a <= YearFromDay d < b.
Proof.
  intros H. pose proof (YearFromDay_spec d) as S. split.
  - destruct (Z_le_gt_dec a (YearFromDay d)); trivial.
    pose proof (DayFromYear_mono (YearFromDay d + 1) a ltac:(lia)). lia.
  - destruct (Z_lt_ge_dec (YearFromDay d) b); trivial.
    pose proof (DayFromYear_mono b (YearFromDay d) ltac:(lia)). lia.
Qed.

(** The days of the years [a] to [b]. *)
Lemma Day_of_years t a b :
  a <= YearFromTime t <= b -> DayFromYear a <= Day t < DayFromYear (b + 1).
Proof.
  intros H. unfold YearFromTime in H.
  pose proof (YearFromDay_spec (Day t)) as S.
  pose proof (DayFromYear_mono a (YearFromDay (Day t)) ltac:(lia)).
  pose proof (DayFromYear_mono (YearFromDay (Day t) + 1) (b + 1) ltac:(lia)).
  lia.
Qed.

(** The calendar fields depend on the day only. *)
Lemma fieldsOf_Day a b : Day a = Day b -> fieldsOf a = fieldsOf b.
Proof.
  intros H.
  unfold fieldsOf, DateFromTime, MonthFromTime, InLeapYear, DayWithinYear,
    YearFromTime.
  now rewrite H.
Qed.

(** [setMonth] on a valid date, in terms of the specification's shift. *)
Lemma setMonth_addMonths LocalTZA t n :
  let local := LocalTime LocalTZA t in
  exists shifted,
    setMonth LocalTZA (Some t)
      (option_map (fun m => m + n) (getMonth LocalTZA (Some t)))
      = TimeClip (UTC LocalTZA shifted) /\
    fieldsOf shifted = Spec.addMonths (fieldsOf local) n /\
    TimeWithinDay shifted = TimeWithinDay local /\
    Day shifted =
      MakeDay (YearFromTime local) (MonthFromTime local + n) (DateFromTime local).
Proof.
  intros local. cbn [setMonth getMonth option_map]. fold local.
  pose proof (fields_range local) as [Hm Hd].
  pose proof (DaysInMonth_range (YearFromTime local) (MonthFromTime local) Hm).
  pose proof (TimeWithinDay_range local) as Ht.
  eexists. split; [ reflexivity | ]. split; [ | split ].
  - unfold fieldsOf at 2. apply MakeDay_addMonths; trivial; lia.
  - now apply TimeWithinDay_MakeDate.
  - now apply Day_MakeDate.
Qed.

(** The local time that [setMonth] builds, and the instant the host reads
    it as. *)
Lemma setMonth_local LocalTZA t n :
  setMonth LocalTZA (Some t)
    (option_map (fun m => m + n) (getMonth LocalTZA (Some t)))
  = TimeClip
      (UTC LocalTZA
         (MakeDate (MakeDay (YearFromTime (LocalTime LocalTZA t))
                            (MonthFromTime (LocalTime LocalTZA t) + n)
                            (DateFromTime (LocalTime LocalTZA t)))
                   (TimeWithinDay (LocalTime LocalTZA t)))).
Proof. reflexivity. Qed.

(** The day count of the code, [Math.ceil(timeDiff / (1000 * 3600 * 24))],
    and the status that the two thresholds give it. *)
Lemma daysLeft_status LocalTZA now customer e t :
  expiryDate (calculateSubscriptionDetails LocalTZA now customer) = Some e ->
  setHoursZero LocalTZA now = Some t ->
  exists n,
    daysLeft (calculateSubscriptionDetails LocalTZA now customer) = Some n /\
    (n - 1) * msPerDay < e - t <= n * msPerDay /\
    status (calculateSubscriptionDetails LocalTZA now customer)
    = if n <=? 0 then Expired else if n <=? 7 then ExpiringSoon else Active.
Proof.
  unfold calculateSubscriptionDetails. cbn [expiryDate status daysLeft].
  intros -> ->. cbn [option_map leNum].
  exists (ceilDiv (e - t) (1000 * 3600 * 24)).
  split; [ reflexivity | ]. split; [ | reflexivity ].
  apply (ceilDiv_spec (e - t) (1000 * 3600 * 24)); [ lia | reflexivity ].
Qed.

(** A subscription whose dates are valid is Expired exactly when its
    expiry date is not after today's midnight. *)
Lemma expired_iff_passed LocalTZA now customer e t :
  expiryDate (calculateSubscriptionDetails LocalTZA now customer) = Some e ->
  setHoursZero LocalTZA now = Some t ->
  (status (calculateSubscriptionDetails LocalTZA now customer) = Expired
   <-> e <= t).
Proof.
  intros He Ht.
  destruct (daysLeft_status LocalTZA now customer e t He Ht) as (n & _ & B & ->).
  unfold msPerDay in B.
  destruct (Z.leb_spec n 0); [ | destruct (Z.leb_spec n 7) ];
    split; intros Hs; try discriminate; try reflexivity; lia.
Qed.

(** It is Active exactly when its expiry date is more than seven days
    after today's midnight. *)
Lemma active_iff_far LocalTZA now customer e t :
  expiryDate (calculateSubscriptionDetails LocalTZA now customer) = Some e ->
  setHoursZero LocalTZA now = Some t ->
  (status (calculateSubscriptionDetails LocalTZA now customer) = Active
   <-> t + 7 * msPerDay < e).
Proof.
  intros He Ht.
  destruct (daysLeft_status LocalTZA now customer e t He Ht) as (n & _ & B & ->).
  unfold msPerDay in *.
  destruct (Z.leb_spec n 0); [ | destruct (Z.leb_spec n 7) ];
    split; intros Hs; try discriminate; try reflexivity; lia.
Qed.

(** C1.  The status is computed from [startDate], [monthsPaid] and today:
    the expiry date is the one obtained from [startDate] and [monthsPaid],
    today is the local midnight of the clock reading, and [daysLeft] is the
    number of days from today to the expiry date, a started day counting
    as a whole one.  At most 0 days left is Expired, 1 to 7 days is
    ExpiringSoon, more than 7 is Active; in terms of the two dates: Expired
    when the expiry date is not after today, ExpiringSoon when it is after
    today by at most seven days, Active when by more.  When either date is
    invalid, [daysLeft] is NaN and the status is Active.  The whole result
    depends on the customer only through [startDate] and [monthsPaid], and
    on the clock only through today's local midnight. *)
Theorem status_by_daysLeft (LocalTZA : Z -> bool -> Z) (now : Z)
    (customer : Customer) :
  let d := calculateSubscriptionDetails LocalTZA now customer in
  let expiry := expiryOf LocalTZA customer in
  let today := setHoursZero LocalTZA now in
  expiryDate d = expiry /\
  (forall e t, expiry = Some e -> today = Some t ->
     exists n, daysLeft d = Some n /\
               (n - 1) * msPerDay < e - t <= n * msPerDay) /\
  (forall e t, expiry = Some e -> today = Some t ->
     (status d = Expired <-> e <= t) /\
     (status d = ExpiringSoon <-> t < e <= t + 7 * msPerDay) /\
     (status d = Active <-> t + 7 * msPerDay < e)) /\
  (expiry = None \/ today = None -> daysLeft d = None /\ status d = Active) /\
  (forall n, daysLeft d = Some n -> n <= 0 -> status d = Expired) /\
  (forall n, daysLeft d = Some n -> 1 <= n <= 7 -> status d = ExpiringSoon) /\
  (forall n, daysLeft d = Some n -> 7 < n -> status d = Active) /\
  (forall now' (customer' : Customer),
      startDate customer' = startDate customer ->
      monthsPaid customer' = monthsPaid customer ->
      setHoursZero LocalTZA now' = today ->
      calculateSubscriptionDetails LocalTZA now' customer' = d).
Proof.
  cbv zeta.
  assert (expiryDate (calculateSubscriptionDetails LocalTZA now customer)
          = expiryOf LocalTZA customer) as HE by reflexivity.
  split; [ exact HE | ]. rewrite <- HE.
  split; [ | split; [ | split ] ].
  - intros e t He Ht.
    destruct (daysLeft_status LocalTZA now customer e t He Ht) as (n & Hn & B & _).
    exists n. auto.
  - intros e t He Ht.
    destruct (daysLeft_status LocalTZA now customer e t He Ht) as (n & _ & B & ->).
    unfold msPerDay in *.
    destruct (Z.leb_spec n 0); [ | destruct (Z.leb_spec n 7) ];
      (split; [ | split ]); split; intros Hs; try discriminate;
      try reflexivity; lia.
  - unfold calculateSubscriptionDetails. cbn [expiryDate daysLeft status].
    intros [-> | ->].
    + split; reflexivity.
    + destruct (setMonth _ _ _); split; reflexivity.
  - unfold calculateSubscriptionDetails. cbn [daysLeft status].
    repeat split.
    + intros n -> H. cbn [leNum].
      destruct (Z.leb_spec n 0); [ reflexivity | lia ].
    + intros n -> H. cbn [leNum].
      destruct (Z.leb_spec n 0); [ lia | ].
      destruct (Z.leb_spec n 7); [ reflexivity | lia ].
    + intros n -> H. cbn [leNum].
      destruct (Z.leb_spec n 0); [ lia | ].
      destruct (Z.leb_spec n 7); [ lia | reflexivity ].
    + intros now' customer' -> -> ->. reflexivity.
Qed.

(** On 9 March 2024 (UTC) a subscription that started on 2024-01-15 with
    two months paid expires on 15 March: six days are left and it is
    expiring soon. *)
Lemma status_by_daysLeft_witness :
  expiryOf (fixedZone 0) Samples.ann = Some 1710460800000 /\
  setHoursZero (fixedZone 0) Samples.march9 = Some 1709942400000 /\
  daysLeft (calculateSubscriptionDetails (fixedZone 0) Samples.march9 Samples.ann)
  = Some 6 /\
  status (calculateSubscriptionDetails (fixedZone 0) Samples.march9 Samples.ann)
  = ExpiringSoon.
Proof.
  split; [ reflexivity | ]. split; [ reflexivity | ]. split; [ reflexivity | ].
  apply (proj1 (proj2 (proj2 (proj2 (proj2 (proj2
           (status_by_daysLeft (fixedZone 0) Samples.march9 Samples.ann)))))) 6);
    [ reflexivity | lia ].
Defined.

(** A time value whose day number is far from the ends of the range
    survives [TimeClip]. *)
Lemma TimeClip_UTC_in_range LocalTZA x :
  - 720000 <= Day x <= 39460000 ->
  - msPerDay <= LocalTZA x false <= msPerDay ->
  TimeClip (UTC LocalTZA x) = Some (UTC LocalTZA x).
Proof.
  unfold UTC. generalize (LocalTZA x false). intros o Hx Hz. unfold TimeClip.
  destruct (Z.leb_spec (Z.abs (x - o)) maxTime) as [ | Hbad ];
    [ reflexivity | exfalso ].
  unfold maxTime, Day, msPerDay in *. Z.div_mod_to_equations. lia.
Qed.

Lemma DayFromYear_at :
  DayFromYear (-1) = -719893 /\ DayFromYear 0 = -719528 /\
  DayFromYear 10000 = 2932897 /\ DayFromYear 10001 = 2933263 /\
  DayFromYear 110002 = 39457878.
Proof. repeat split. Qed.

Lemma MakeDay_first_year y m d :
  0 <= m <= 11 -> MakeDay y m d = DayFromYear y + monthStart (isLeapYear y) m + d - 1.
Proof.
  intros Hm. unfold MakeDay.
  rewrite Z.div_small, Z.mod_small by lia. now rewrite Z.add_0_r.
Qed.

(** The day number of a parsed start date. *)
Lemma parse_Day s t :
  parse s = Some t -> DayFromYear 0 <= Day t < DayFromYear 10000.
Proof.
  intros Hp.
  destruct (parse_Some s t Hp) as (y & m & d & Hy & Hm & Hd & ->).
  rewrite Day_MakeDate by (unfold msPerDay; lia).
  rewrite MakeDay_first_year by assumption.
  pose proof (monthStart_nonneg (isLeapYear y) m Hm).
  pose proof (monthStart_le_year (isLeapYear y) m Hm) as L.
  unfold DaysInMonth in Hd.
  pose proof (DayFromYear_mono 0 y ltac:(lia)).
  pose proof (DayFromYear_mono (y + 1) 10000 ltac:(lia)) as U.
  rewrite DayFromYear_succ in U. unfold DaysInYear in U.
  destruct (isLeapYear y); lia.
Qed.

(** The stored date of a start date that parses: the parsed instant is
    midnight UTC of the calendar date that the string names. *)
Lemma parse_isoDate s t :
  parse s = Some t ->
  exists y m d,
    isoDate s = Some (y, m, d) /\ fieldsOf t = (y, m, d) /\
    TimeWithinDay t = 0.
Proof.
  unfold parse. destruct (isoDate s) as [[[y m] d] | ] eqn:E; [ | discriminate ].
  pose proof (isoDate_Some s y m d E) as (Hy & Hm & Hd).
  unfold TimeClip.
  match goal with |- (if ?c then _ else _) = _ -> _ => destruct c end;
    try discriminate.
  intros [= <-]. exists y, m, d. split; [ reflexivity | ].
  rewrite MakeDay_first_year by exact Hm.
  assert (0 <= 0 < msPerDay) as H0 by (unfold msPerDay; lia).
  destruct (fields_of_MakeDate y m d 0 Hm Hd H0) as (F1 & F2 & F3).
  split.
  - unfold fieldsOf. now rewrite F1, F2, F3.
  - now apply TimeWithinDay_MakeDate.
Qed.

Lemma Day_LocalTime LocalTZA t :
  - msPerDay <= LocalTZA t true <= msPerDay ->
  Day t - 1 <= Day (LocalTime LocalTZA t) <= Day t + 1.
Proof.
  unfold LocalTime. generalize (LocalTZA t true). intros o Hz.
  unfold Day, msPerDay in *. Z.div_mod_to_equations; lia.
Qed.

(** The local date of an instant that is midnight UTC: the same date at
    UTC and east of it, the day before west of it. *)
Lemma LocalTime_of_midnight LocalTZA t :
  TimeWithinDay t = 0 ->
  (0 <= LocalTZA t true < msPerDay ->
   Day (LocalTime LocalTZA t) = Day t /\
   TimeWithinDay (LocalTime LocalTZA t) = LocalTZA t true) /\
  (- msPerDay <= LocalTZA t true < 0 ->
   Day (LocalTime LocalTZA t) = Day t - 1 /\
   TimeWithinDay (LocalTime LocalTZA t) = msPerDay + LocalTZA t true).
Proof.
  unfold LocalTime. generalize (LocalTZA t true). intros o H0.
  unfold Day, TimeWithinDay, msPerDay in *.
  split; intros Ho; Z.div_mod_to_equations; lia.
Qed.

(** The day [MakeDay] reaches from a year in -1..10000 in at most 1200000
    months. *)
Lemma MakeDay_bounds y m n d :
  -1 <= y <= 10000 -> 0 <= m <= 11 -> 0 <= n <= 1200000 -> 1 <= d <= 31 ->
  - 720000 <= MakeDay y (m + n) d <= 39460000.
Proof.
  intros Hy Hm Hn Hd. unfold MakeDay.
  set (k := m + n).
  assert (0 <= k mod 12 <= 11) as Hk by (pose proof (Z.mod_pos_bound k 12); lia).
  assert (0 <= k / 12 <= 100001) as Hq
    by (unfold k; Z.div_mod_to_equations; lia).
  pose proof (monthStart_nonneg (isLeapYear (y + k / 12)) (k mod 12) Hk).
  pose proof (monthStart_le_year (isLeapYear (y + k / 12)) (k mod 12) Hk).
  pose proof (DaysInMonth_range (y + k / 12) (k mod 12) Hk) as R1.
  unfold DaysInMonth in R1.
  pose proof (DayFromYear_mono (-1) (y + k / 12) ltac:(lia)).
  pose proof (DayFromYear_mono (y + k / 12) 110002 ltac:(lia)).
  destruct DayFromYear_at as (E1 & _ & _ & _ & E5).
  destruct (isLeapYear (y + k / 12)); lia.
Qed.

(** A string that names a calendar date parses. *)
Lemma isoDate_parse s y m d :
  isoDate s = Some (y, m, d) ->
  exists t, parse s = Some t /\ fieldsOf t = (y, m, d) /\ TimeWithinDay t = 0.
Proof.
  intros Hiso.
  destruct (parse s) as [t | ] eqn:Hp.
  - exists t. split; [ reflexivity | ].
    destruct (parse_isoDate s t Hp) as (y' & m' & d' & Hiso' & HF & T0).
    rewrite Hiso in Hiso'. injection Hiso' as <- <- <-. auto.
  - exfalso. unfold parse in Hp. rewrite Hiso in Hp.
    pose proof (isoDate_Some _ _ _ _ Hiso) as (Hy & Hm & Hd).
    pose proof (DaysInMonth_range y m Hm) as R.
    pose proof (MakeDay_bounds y m 0 d ltac:(lia) Hm ltac:(lia) ltac:(lia)) as B.
    replace (m + 0) with m in B by lia.
    revert Hp. unfold TimeClip.
    destruct (Z.leb_spec (Z.abs (MakeDate (MakeDay y m d) 0)) maxTime) as [ | C ];
      [ discriminate | intros _ ].
    unfold MakeDate, maxTime, msPerDay in *. lia.
Qed.

(** A start in the years 0 to 9999 and a sensible number of months give a
    valid expiry date, in every zone whose offsets are at most a day. *)
Lemma setMonth_valid LocalTZA t n :
  0 <= YearFromTime t <= 9999 ->
  0 <= n <= 1200000 ->
  (forall x b, - msPerDay <= LocalTZA x b <= msPerDay) ->
  exists e,
    setMonth LocalTZA (Some t)
      (option_map (fun m => m + n) (getMonth LocalTZA (Some t))) = Some e.
Proof.
  intros Hp Hn Hz.
  destruct (setMonth_addMonths LocalTZA t n) as (shifted & -> & _ & _ & HD).
  pose proof (fields_range (LocalTime LocalTZA t)) as [HM HDt].
  pose proof (DaysInMonth_range (YearFromTime (LocalTime LocalTZA t)) _ HM) as R.
  pose proof (Day_of_years t 0 9999 Hp) as B.
  pose proof (Day_LocalTime LocalTZA t (Hz t true)) as Dl.
  destruct DayFromYear_at as (E1 & E2 & E3 & E4 & _).
  change (9999 + 1) with 10000 in B.
  assert (-1 <= YearFromTime (LocalTime LocalTZA t) < 10001) as HY
    by (apply YearFromDay_bounds; lia).
  exists (UTC LocalTZA shifted).
  apply TimeClip_UTC_in_range; [ | apply Hz ].
  rewrite HD. apply MakeDay_bounds; lia.
Qed.

Lemma TimeClip_Some x e : TimeClip x = Some e -> e = x /\ Z.abs x <= maxTime.
Proof.
  unfold TimeClip. destruct (Z.leb_spec (Z.abs x) maxTime); [ | discriminate ].
  intros [= <-]. auto.
Qed.

(** C2.  The expiry date is computed on the local clock.  A start date
    of the form [YYYY-MM-DD] parses to the instant of midnight UTC of the
    calendar date it names; from the parsed instant [setMonth] takes the
    local date and time of day,
    moves the date on by [monthsPaid] calendar months (a day the target
    month lacks running on into the next month), keeps the time of day,
    and the host reads the result back as an instant.  Where the zone has
    that local time (reads it back unchanged), it is the local time of the
    expiry date.  At UTC and east of it (by less than a day) the local
    date of the start instant is the stored date; west of UTC it is the
    day before.  The expiry date is valid for a start in the years 0 to
    9999, up to 1200000 months and offsets of at most a day; a start date
    that does not parse gives an Invalid Date; and the expiry date is
    computed from [startDate] and [monthsPaid] alone (the customer record
    has no field for it). *)
Theorem expiryDate_is_startDate_plus_months (LocalTZA : Z -> bool -> Z)
    (now : Z) (customer : Customer) :
  let expiry := expiryDate (calculateSubscriptionDetails LocalTZA now customer) in
  let n := monthsPaid customer in
  (forall y m d,
     isoDate (startDate customer) = Some (y, m, d) ->
     exists t,
       parse (startDate customer) = Some t /\
       fieldsOf t = (y, m, d) /\ TimeWithinDay t = 0) /\
  (forall t, parse (startDate customer) = Some t ->
     let local := LocalTime LocalTZA t in
     (exists shifted,
        expiry = TimeClip (UTC LocalTZA shifted) /\
        fieldsOf shifted = Spec.addMonths (fieldsOf local) n /\
        TimeWithinDay shifted = TimeWithinDay local /\
        (LocalTime LocalTZA (UTC LocalTZA shifted) = shifted ->
         forall e, expiry = Some e -> LocalTime LocalTZA e = shifted)) /\
     (TimeWithinDay t = 0 -> 0 <= LocalTZA t true < msPerDay ->
      fieldsOf local = fieldsOf t) /\
     (TimeWithinDay t = 0 -> - msPerDay <= LocalTZA t true < 0 ->
      fieldsOf local = fieldsOf (t - msPerDay)) /\
     (0 <= YearFromTime t <= 9999 -> 0 <= n <= 1200000 ->
      (forall x b, - msPerDay <= LocalTZA x b <= msPerDay) ->
      exists e, expiry = Some e)) /\
  (parse (startDate customer) = None -> expiry = None) /\
  (forall now' (customer' : Customer),
      startDate customer' = startDate customer ->
      monthsPaid customer' = monthsPaid customer ->
      expiryDate (calculateSubscriptionDetails LocalTZA now' customer') = expiry).
Proof.
  cbv zeta. unfold calculateSubscriptionDetails. cbn [expiryDate].
  split; [ | split; [ | split ] ].
  - intros y m d Hiso. now apply isoDate_parse.
  - intros t Ht. rewrite Ht.
    split; [ | split; [ | split ] ].
    + destruct (setMonth_addMonths LocalTZA t (monthsPaid customer))
        as (shifted & H1 & H2 & H3 & _).
      exists shifted. repeat split; trivial.
      intros Hback e He. rewrite H1 in He.
      apply TimeClip_Some in He. destruct He as [-> _]. exact Hback.
    + intros T0 Hz. apply fieldsOf_Day.
      now apply (LocalTime_of_midnight LocalTZA t T0).
    + intros T0 Hz. apply fieldsOf_Day.
      destruct (proj2 (LocalTime_of_midnight LocalTZA t T0) Hz) as [-> _].
      unfold Day, msPerDay. Z.div_mod_to_equations; lia.
    + intros Hy Hn Hz. now apply setMonth_valid.
  - intros ->. reflexivity.
  - intros now' customer' -> ->. reflexivity.
Qed.

(** 31 January 2024 plus one month is 2 March 2024 (UTC): 2024 is a leap
    year and February has 29 days. *)
Lemma expiryDate_is_startDate_plus_months_witness :
  isoDate (startDate Samples.bob) = Some (2024, 0, 31) /\
  parse (startDate Samples.bob) = Some 1706659200000 /\
  Spec.addMonths (2024, 0, 31) 1 = (2024, 2, 2) /\
  (exists e,
     expiryDate (calculateSubscriptionDetails (fixedZone 0) Samples.march9
                   Samples.bob) = Some e) /\
  expiryDate (calculateSubscriptionDetails (fixedZone 0) Samples.march9
                Samples.bob) = parse "2024-03-02".
Proof.
  split; [ reflexivity | ]. split; [ reflexivity | ].
  split; [ reflexivity | ]. split; [ | reflexivity ].
  apply (proj1 (proj2 (expiryDate_is_startDate_plus_months (fixedZone 0)
                         Samples.march9 Samples.bob)) 1706659200000 eq_refl).
  - vm_compute. split; discriminate.
  - vm_compute. split; discriminate.
  - intros x b. unfold fixedZone, msPerDay. lia.
Defined.

(** West of UTC the date that is moved on is the day before the stored
    one.  At UTC-5 a subscription stored as starting on 2024-03-01 with one
    month paid expires at 2024-03-30T00:00Z, which is 29 March, 19:00, on
    the local clock; the stored date moved on by one month is 1 April. *)
Lemma expiry_west_of_UTC :
  isoDate (startDate Samples.dan) = Some (2024, 2, 1) /\
  Spec.addMonths (2024, 2, 1) (monthsPaid Samples.dan) = (2024, 3, 1) /\
  expiryDate (calculateSubscriptionDetails (fixedZone (-18000000))
                Samples.march9 Samples.dan) = Some 1711756800000 /\
  fieldsOf 1711756800000 = (2024, 2, 30) /\
  fieldsOf (LocalTime (fixedZone (-18000000)) 1711756800000) = (2024, 2, 29) /\
  parse "2024-04-01" = Some 1711929600000.
Proof. repeat split. Qed.

End StatusFacts.

(** ** Monthly history *)

Module HistoryFacts.
Import Types JS App JSDate DateFacts StatusFacts.

(** The loop over the customers, as a count and a sum over those that
    pass the test [p]. *)
Lemma count_and_sum (p : Customer -> bool) (price : Customer -> Z)
    (l : list Customer) (a b : Z) :
  fold_left
    (fun '(activeUsers, totalIncome) (customer : Customer) =>
       if p customer
       then (activeUsers + 1, totalIncome + price customer)
       else (activeUsers, totalIncome))
    l (a, b)
  = (a + Z.of_nat (List.length (filter p l)),
     b + Spec.sum (map price (filter p l))).
Proof.
  revert a b. induction l as [ | c l IH ]; intros a b; simpl.
  - f_equal; lia.
  - destruct (p c); rewrite IH; simpl List.length; simpl map;
      unfold Spec.sum; simpl fold_right; f_equal; lia.
Qed.

Lemma monthRecord_overlap LocalTZA now customers i year month :
  getFullYear LocalTZA (firstOfMonth LocalTZA now i) = Some year ->
  getMonth LocalTZA (firstOfMonth LocalTZA now i) = Some month ->
  monthRecord LocalTZA now customers i =
    mkMonthlyRecord
      (toString year ++ "-" ++ padStart2 (toString (month + 1)))
      (Z.of_nat (List.length
                   (filter (overlapsMonth LocalTZA year month) customers)))
      (Spec.sum (map Spec.price
                   (filter (overlapsMonth LocalTZA year month) customers))).
Proof.
  intros Hy Hm. unfold monthRecord. rewrite Hy, Hm. cbv zeta.
  rewrite (count_and_sum (overlapsMonth LocalTZA year month) Spec.price).
  reflexivity.
Qed.

(** *** Calendar dates and day numbers *)

Lemma monthStart_next leap m :
  0 <= m <= 11 -> monthStart leap m < monthStart leap (m + 1).
Proof. intros H. month_cases m; destruct leap; eval_monthStart; lia. Qed.

Lemma monthStart_mono leap a b :
  0 <= a <= b -> b <= 12 -> monthStart leap a <= monthStart leap b.
Proof.
  intros Hab Hb.
  replace b with (a + Z.of_nat (Z.to_nat (b - a))) in * by lia.
  induction (Z.to_nat (b - a)) as [ | k IH ].
  - replace (a + Z.of_nat 0) with a by lia. lia.
  - replace (a + Z.of_nat (S k)) with (a + Z.of_nat k + 1) in * by lia.
    pose proof (monthStart_next leap (a + Z.of_nat k) ltac:(lia)).
    specialize (IH ltac:(lia) ltac:(lia)). lia.
Qed.

(** A time value's day number, from its calendar fields. *)
Lemma Day_fields t :
  Day t = MakeDay (YearFromTime t) (MonthFromTime t) (DateFromTime t).
Proof.
  rewrite MakeDay_first_year by apply fields_range.
  unfold DateFromTime, DayWithinYear, InLeapYear. lia.
Qed.

(** The order of calendar dates is the order of day numbers. *)
Lemma dateLe_Day a b :
  Spec.dateLe (fieldsOf a) (fieldsOf b) = (Day a <=? Day b).
Proof.
  unfold fieldsOf, Spec.dateLe.
  pose proof (YearFromDay_spec (Day a)) as Ya.
  pose proof (YearFromDay_spec (Day b)) as Yb.
  pose proof (DayWithinYear_range a) as Ra.
  pose proof (DayWithinYear_range b) as Rb.
  pose proof (monthOfDay_range (InLeapYear a) (DayWithinYear a)) as Ma.
  pose proof (monthOfDay_range (InLeapYear b) (DayWithinYear b)) as Mb.
  unfold DateFromTime, MonthFromTime.
  unfold InLeapYear, DaysInYear in *.
  specialize (Ma Ra). specialize (Mb Rb).
  unfold DayWithinYear, YearFromTime in *.
  set (y1 := YearFromDay (Day a)) in *. set (y2 := YearFromDay (Day b)) in *.
  set (m1 := monthOfDay (isLeapYear y1) (Day a - DayFromYear y1)) in *.
  set (m2 := monthOfDay (isLeapYear y2) (Day b - DayFromYear y2)) in *.
  destruct Ma as (Ma1 & Ma2), Mb as (Mb1 & Mb2).
  destruct (Z.ltb_spec y1 y2) as [L | G]; cbn [orb].
  - pose proof (DayFromYear_mono (y1 + 1) y2 ltac:(lia)).
    symmetry. apply Z.leb_le. lia.
  - destruct (Z.eqb_spec y1 y2) as [E | N]; cbn [andb].
    + revert Mb1 Mb2. rewrite <- E. intros Mb1 Mb2.
      destruct (Z.ltb_spec m1 m2) as [Lm | Gm]; cbn [orb].
      * pose proof (monthStart_mono (isLeapYear y1) (m1 + 1) m2
                      ltac:(lia) ltac:(lia)).
        symmetry. apply Z.leb_le. lia.
      * destruct (Z.eqb_spec m1 m2) as [Em | Nm]; cbn [andb].
        -- rewrite <- Em.
           destruct (Z.leb_spec
                       (Day a - DayFromYear y1 - monthStart (isLeapYear y1) m1 + 1)
                       (Day b - DayFromYear y1 - monthStart (isLeapYear y1) m1 + 1));
             symmetry; [ apply Z.leb_le | apply Z.leb_gt ]; lia.
        -- pose proof (monthStart_mono (isLeapYear y1) (m2 + 1) m1
                         ltac:(lia) ltac:(lia)).
           symmetry. apply Z.leb_gt. lia.
    + pose proof (DayFromYear_mono (y2 + 1) y1 ltac:(lia)).
      symmetry. apply Z.leb_gt. lia.
Qed.

(** Midnight of a day against any instant. *)
Lemma midnight_le t x : TimeWithinDay t = 0 -> (t <=? x) = (Day t <=? Day x).
Proof.
  intros H. unfold TimeWithinDay, Day, msPerDay in *.
  destruct (Z.leb_spec t x); symmetry; [ apply Z.leb_le | apply Z.leb_gt ];
    Z.div_mod_to_equations; lia.
Qed.

Lemma lt_midnight x e : TimeWithinDay e = 0 -> (x <? e) = negb (Day e <=? Day x).
Proof.
  intros H. unfold TimeWithinDay, Day, msPerDay in *.
  destruct (Z.ltb_spec x e); symmetry;
    [ apply negb_true_iff, Z.leb_gt | apply negb_false_iff, Z.leb_le ];
    Z.div_mod_to_equations; lia.
Qed.

(** *** The month bounds *)

Lemma MakeDay_date y k d : MakeDay y k d = MakeDay y k 0 + d.
Proof. unfold MakeDay. lia. Qed.

Lemma MakeDay_next_month y k d :
  MakeDay y (k + 1) d = MakeDay y k d + DaysInMonth (y + k / 12) (k mod 12).
Proof.
  unfold MakeDay, DaysInMonth.
  pose proof (Z.mod_pos_bound k 12 ltac:(lia)) as Hr.
  destruct (Z.eq_dec (k mod 12) 11) as [E | N].
  - assert ((k + 1) / 12 = k / 12 + 1 /\ (k + 1) mod 12 = 0) as [-> ->]
      by (Z.div_mod_to_equations; lia).
    rewrite E, Z.add_assoc, DayFromYear_succ. unfold DaysInYear.
    destruct (isLeapYear (y + k / 12)), (isLeapYear (y + k / 12 + 1));
      eval_monthStart; lia.
  - assert ((k + 1) / 12 = k / 12 /\ (k + 1) mod 12 = k mod 12 + 1) as [-> ->].
    { pose proof (Z.div_mod k 12 ltac:(lia)).
      pose proof (Z.div_mod (k + 1) 12 ltac:(lia)).
      pose proof (Z.mod_pos_bound (k + 1) 12 ltac:(lia)). lia. }
    lia.
Qed.

(** [new Date(year, month + 1, 0)] is the last day of the month. *)
Lemma MakeDay_last_day y m :
  0 <= m <= 11 -> MakeDay y (m + 1) 0 = MakeDay y m (DaysInMonth y m).
Proof.
  intros Hm. rewrite MakeDay_next_month, (MakeDay_date y m (DaysInMonth _ _)).
  rewrite Z.div_small, Z.mod_small by lia.
  replace (y + 0) with y by lia. reflexivity.
Qed.

(** The local midnights that begin the first and the last day of a month
    of the years 100 to 9999, as [historyData] builds them. *)
Lemma month_bounds LocalTZA year month :
  100 <= year <= 9999 -> 0 <= month <= 11 ->
  (forall x b, - msPerDay <= LocalTZA x b <= msPerDay) ->
  let first := MakeDate (MakeDay year month 1) 0 in
  let last := MakeDate (MakeDay year month (DaysInMonth year month)) 0 in
  newDateYMD LocalTZA year month 1 = Some (UTC LocalTZA first) /\
  newDateYMD LocalTZA year (month + 1) 0 = Some (UTC LocalTZA last) /\
  fieldsOf first = (year, month, 1) /\
  fieldsOf last = (year, month, DaysInMonth year month) /\
  TimeWithinDay first = 0 /\ TimeWithinDay last = 0.
Proof.
  intros Hy Hm Hz first last.
  pose proof (DaysInMonth_range year month Hm) as R.
  assert (0 <= 0 < msPerDay) as H0 by (unfold msPerDay; lia).
  unfold newDateYMD.
  destruct (Z.leb_spec 0 year); destruct (Z.leb_spec year 99); try lia.
  cbn [andb]. rewrite (MakeDay_last_day year month Hm). fold first last.
  assert (forall d, 1 <= d <= 31 ->
            - 720000 <= Day (MakeDate (MakeDay year month d) 0) <= 39460000) as B.
  { intros d Hd. rewrite Day_MakeDate by exact H0.
    replace month with (month + 0) by lia.
    apply MakeDay_bounds; lia. }
  split; [ | split; [ | split; [ | split; [ | split ] ] ] ].
  - apply TimeClip_UTC_in_range; [ apply B; lia | apply Hz ].
  - apply TimeClip_UTC_in_range; [ apply B; lia | apply Hz ].
  - unfold first. rewrite MakeDay_first_year by exact Hm.
    destruct (fields_of_MakeDate year month 1 0 Hm ltac:(lia) H0)
      as (F1 & F2 & F3).
    unfold fieldsOf. now rewrite F1, F2, F3.
  - unfold last. rewrite MakeDay_first_year by exact Hm.
    destruct (fields_of_MakeDate year month (DaysInMonth year month) 0 Hm
                ltac:(lia) H0) as (F1 & F2 & F3).
    unfold fieldsOf. now rewrite F1, F2, F3.
  - now apply TimeWithinDay_MakeDate.
  - now apply TimeWithinDay_MakeDate.
Qed.

(** *** The test at UTC *)

Lemma LocalTime_at_UTC LocalTZA t :
  (forall x b, LocalTZA x b = 0) -> LocalTime LocalTZA t = t /\ UTC LocalTZA t = t.
Proof. intros H. unfold LocalTime, UTC. rewrite !H. lia. Qed.

(** At UTC the expiry date is midnight of the stored date moved on by
    [monthsPaid] months. *)
Lemma expiryOf_at_UTC LocalTZA (customer : Customer) y m d :
  (forall x b, LocalTZA x b = 0) ->
  isoDate (startDate customer) = Some (y, m, d) ->
  0 <= monthsPaid customer <= 1200000 ->
  exists e,
    expiryOf LocalTZA customer = Some e /\
    fieldsOf e = Spec.addMonths (y, m, d) (monthsPaid customer) /\
    TimeWithinDay e = 0.
Proof.
  intros HU Hiso Hn. unfold expiryOf.
  destruct (isoDate_parse _ _ _ _ Hiso) as (t & Hp & HF & T0). rewrite Hp.
  assert (0 <= YearFromTime t <= 9999) as HY.
  { unfold fieldsOf in HF. injection HF as -> _ _.
    now apply (isoDate_Some _ _ _ _ Hiso). }
  destruct (setMonth_valid LocalTZA t (monthsPaid customer) HY Hn) as (e & He).
  { intros x b. rewrite HU. unfold msPerDay. lia. }
  exists e. split; [ exact He | ].
  destruct (setMonth_addMonths LocalTZA t (monthsPaid customer))
    as (shifted & E & F & T & _).
  rewrite E in He. apply TimeClip_Some in He. destruct He as [-> _].
  destruct (LocalTime_at_UTC LocalTZA shifted HU) as [_ ->].
  destruct (LocalTime_at_UTC LocalTZA t HU) as [Hl _].
  rewrite Hl in F, T. rewrite F, T, HF. auto.
Qed.

(** At UTC the test of the loop is the specification's comparison of
    calendar dates. *)
Lemma overlapsMonth_at_UTC LocalTZA (customer : Customer) year month y m d :
  (forall x b, LocalTZA x b = 0) ->
  100 <= year <= 9999 -> 0 <= month <= 11 ->
  isoDate (startDate customer) = Some (y, m, d) ->
  0 <= monthsPaid customer <= 1200000 ->
  overlapsMonth LocalTZA year month customer
  = Spec.activeInMonth (y, m, d) (Spec.addMonths (y, m, d) (monthsPaid customer))
      year month.
Proof.
  intros HU Hy Hm Hiso Hn.
  destruct (expiryOf_at_UTC LocalTZA customer y m d HU Hiso Hn)
    as (e & He & Fe & Te).
  destruct (month_bounds LocalTZA year month Hy Hm) as (B1 & B2 & F1 & F2 & T1 & T2).
  { intros x b. rewrite HU. unfold msPerDay. lia. }
  unfold overlapsMonth. cbv zeta. rewrite He, B1, B2.
  destruct (parse (startDate customer)) as [t | ] eqn:Hp;
    [ | unfold expiryOf in He; rewrite Hp in He; discriminate ].
  destruct (parse_isoDate _ _ Hp) as (y' & m' & d' & Hiso' & Ft & Tt).
  rewrite Hiso in Hiso'. injection Hiso' as <- <- <-.
  rewrite !(proj2 (LocalTime_at_UTC LocalTZA _ HU)).
  unfold Spec.activeInMonth, Spec.dateLt. cbn [leTV gtTV].
  rewrite <- Fe, <- Ft, <- F1, <- F2, !dateLe_Day.
  rewrite (midnight_le t _ Tt), (lt_midnight _ e Te). reflexivity.
Qed.

(** *** East of UTC *)

(** A start date on the last day of a month is later than the local
    midnight that begins that day, wherever the host reads that midnight
    with a positive offset. *)
Lemma last_day_start_not_counted LocalTZA (customer : Customer) t y m :
  parse (startDate customer) = Some t ->
  fieldsOf t = (y, m, DaysInMonth y m) ->
  100 <= y ->
  0 < LocalTZA (MakeDate (Day t) 0) false ->
  overlapsMonth LocalTZA y m customer = false.
Proof.
  intros Hp HF Hy Hz. unfold overlapsMonth. rewrite Hp. cbv zeta.
  apply andb_false_intro1.
  unfold fieldsOf in HF. injection HF as HY HM HD.
  pose proof (fields_range t) as [Hm _]. rewrite HM in Hm.
  assert (Day t = MakeDay y (m + 1) 0) as HDay.
  { rewrite (MakeDay_last_day y m Hm), (Day_fields t), HY, HM, HD.
    reflexivity. }
  unfold newDateYMD.
  destruct (Z.leb_spec 0 y); destruct (Z.leb_spec y 99); try lia.
  cbn [andb]. rewrite <- HDay.
  destruct (TimeClip (UTC LocalTZA (MakeDate (Day t) 0))) as [e | ] eqn:E;
    [ | reflexivity ].
  apply TimeClip_Some in E. destruct E as [-> _]. cbn [leTV].
  apply Z.leb_gt. unfold UTC.
  pose proof (TimeWithinDay_range t).
  unfold MakeDate, Day, TimeWithinDay, msPerDay in *.
  Z.div_mod_to_equations; lia.
Qed.

(** *** The example *)

(** Decide a [TimeClip] whose argument is within the range. *)
Ltac clip :=
  unfold TimeClip, maxTime in *;
  repeat match goal with
  | |- context [Z.abs ?x <=? ?m] =>
      destruct (Z.leb_spec (Z.abs x) m); [ | exfalso; lia ]
  end.

(** Name the offsets that occur in the goal. *)
Ltac offsets LocalTZA Hz :=
  repeat match goal with
  | |- context [LocalTZA ?x ?b] =>
      let o := fresh "o" in
      pose proof (Hz x b); set (o := LocalTZA x b) in *; clearbody o
  end.

(** A start on 2024-01-15 with two months paid: the expiry date is within
    two days of 2024-03-15T00:00Z wherever the offsets are less than a day,
    and it is that instant where the offset is fixed. *)
Lemma ann_expiry LocalTZA :
  (forall x b, - msPerDay < LocalTZA x b < msPerDay) ->
  exists e,
    expiryOf LocalTZA Samples.ann = Some e /\
    1710288000000 < e < 1710633600000 /\
    ((forall x b, LocalTZA x b = LocalTZA 0 true) -> e = 1710460800000).
Proof.
  intros Hz. unfold expiryOf.
  change (parse (startDate Samples.ann)) with (Some 1705276800000).
  cbn [setMonth getMonth option_map].
  change (monthsPaid Samples.ann) with 2.
  pose proof (Hz 1705276800000 true) as H1.
  set (local := LocalTime LocalTZA 1705276800000).
  unfold MonthFromTime, DateFromTime, MonthFromTime, InLeapYear, DayWithinYear,
    YearFromTime, TimeWithinDay.
  destruct (Z_le_gt_dec 0 (LocalTZA 1705276800000 true)) as [Hpos | Hneg].
  - assert (Day local = 19737 /\
            local mod msPerDay = LocalTZA 1705276800000 true) as [-> ->].
    { unfold local, LocalTime, Day, msPerDay in *. Z.div_mod_to_equations; lia. }
    match goal with |- context [MakeDay ?a ?b ?c] =>
      let v := eval vm_compute in (MakeDay a b c) in
      change (MakeDay a b c) with v end.
    unfold UTC, MakeDate.
    match goal with |- context [LocalTZA ?x false] =>
      pose proof (Hz x false) as H2; set (x2 := x) in * end.
    eexists. split; [ | split ].
    + unfold msPerDay in *. clip. reflexivity.
    + unfold msPerDay in *. lia.
    + intros Hfix. rewrite (Hfix x2 false). subst x2.
      rewrite (Hfix 1705276800000 true). unfold msPerDay. lia.
  - assert (Day local = 19736 /\
            local mod msPerDay = msPerDay + LocalTZA 1705276800000 true)
      as [-> ->].
    { unfold local, LocalTime, Day, msPerDay in *. Z.div_mod_to_equations; lia. }
    match goal with |- context [MakeDay ?a ?b ?c] =>
      let v := eval vm_compute in (MakeDay a b c) in
      change (MakeDay a b c) with v end.
    unfold UTC, MakeDate.
    match goal with |- context [LocalTZA ?x false] =>
      pose proof (Hz x false) as H2; set (x2 := x) in * end.
    eexists. split; [ | split ].
    + unfold msPerDay in *. clip. reflexivity.
    + unfold msPerDay in *. lia.
    + intros Hfix. rewrite (Hfix x2 false). subst x2.
      rewrite (Hfix 1705276800000 true). unfold msPerDay. lia.
Qed.

Lemma ann_months LocalTZA :
  (forall x b, - msPerDay < LocalTZA x b < msPerDay) ->
  overlapsMonth LocalTZA 2024 0 Samples.ann = true /\
  overlapsMonth LocalTZA 2024 1 Samples.ann = true /\
  overlapsMonth LocalTZA 2024 2 Samples.ann = true /\
  overlapsMonth LocalTZA 2024 3 Samples.ann = false.
Proof.
  intros Hz. unfold overlapsMonth.
  destruct (ann_expiry LocalTZA Hz) as (e & -> & He & _).
  change (parse (startDate Samples.ann)) with (Some 1705276800000).
  unfold newDateYMD. cbn [Z.leb Z.compare Pos.compare Pos.compare_cont andb].
  repeat match goal with |- context [MakeDay ?a ?b ?c] =>
      let v := eval vm_compute in (MakeDay a b c) in
      change (MakeDay a b c) with v end.
  unfold UTC, MakeDate. offsets LocalTZA Hz.
  unfold msPerDay in *. clip.
  unfold leTV, gtTV.
  repeat split;
    repeat match goal with
      | |- context [?a <=? ?b] => destruct (Z.leb_spec a b)
      | |- context [?a <? ?b] => destruct (Z.ltb_spec a b)
      end; try reflexivity; exfalso; lia.
Qed.




End HistoryFacts.

(** ** Decimal strings *)

Module StringFacts.
Import JS.

Local Open Scope list_scope.

Lemma chars_app a b :
  list_ascii_of_string (a ++ b)%string
  = list_ascii_of_string a ++ list_ascii_of_string b.
Proof. induction a as [ | c a IH ]; cbn; [ | rewrite IH ]; reflexivity. Qed.

Lemma chars_inj a b : list_ascii_of_string a = list_ascii_of_string b -> a = b.
Proof.
  intros H. rewrite <- (string_of_list_ascii_of_string a),
    <- (string_of_list_ascii_of_string b). now rewrite H.
Qed.

Lemma uint_no_dash u :
  ~ In "-"%char (list_ascii_of_string (NilEmpty.string_of_uint u)).
Proof.
  induction u; cbn; try tauto; intros [H | H]; (discriminate || auto).
Qed.

(** The decimal string of a natural number has no minus sign. *)
Lemma toString_nat_no_dash (n : nat) :
  ~ In "-"%char (list_ascii_of_string (toString (Z.of_nat n))).
Proof.
  unfold toString. destruct (Z.of_nat n) as [ | p | p ] eqn:E; try lia.
  - cbn. intros [H | []]. discriminate.
  - cbn [Z.to_int NilZero.string_of_int NilZero.string_of_uint].
    destruct (Pos.to_uint p) eqn:U; try apply uint_no_dash.
    cbn. intros [H | []]. discriminate.
Qed.

Lemma to_int_nonnil z :
  Z.to_int z <> Decimal.Pos Decimal.Nil /\ Z.to_int z <> Decimal.Neg Decimal.Nil.
Proof.
  destruct z as [ | p | p ]; cbn; split; try discriminate;
    intros [= H]; now apply (DecimalPos.Unsigned.to_uint_nonnil p).
Qed.

(** Different integers print differently. *)
Lemma toString_inj a b : toString a = toString b -> a = b.
Proof.
  unfold toString. intros H. apply DecimalZ.to_int_inj.
  apply (f_equal NilZero.int_of_string) in H.
  destruct (to_int_nonnil a), (to_int_nonnil b).
  rewrite !NilZero.isi in H by assumption. congruence.
Qed.

(** A list splits in one way only at the last occurrence of an element. *)
Lemma split_at_last {A} (a : A) l1 r1 l2 r2 :
  ~ In a r1 -> ~ In a r2 -> l1 ++ a :: r1 = l2 ++ a :: r2 -> l1 = l2 /\ r1 = r2.
Proof.
  revert l2. induction l1 as [ | x l1 IH ]; intros [ | y l2 ] H1 H2 E; cbn in E.
  - inversion E. auto.
  - inversion E; subst. exfalso. apply H1. apply in_or_app. right. now left.
  - inversion E; subst. exfalso. apply H2. apply in_or_app. right. now left.
  - inversion E; subst. destruct (IH l2 H1 H2) as [-> ->]; auto.
Qed.

(** The ids of imported rows tell both the clock reading and the index. *)
Lemma importId_inj t1 i1 t2 i2 :
  (toString t1 ++ "-" ++ toString (Z.of_nat i1))%string
  = (toString t2 ++ "-" ++ toString (Z.of_nat i2))%string ->
  t1 = t2 /\ i1 = i2.
Proof.
  intros H. apply (f_equal list_ascii_of_string) in H.
  rewrite !chars_app in H. cbn [list_ascii_of_string app] in H.
  apply split_at_last in H; try apply toString_nat_no_dash.
  destruct H as [H1 H2]. apply chars_inj, toString_inj in H1, H2.
  split; [ assumption | lia ].
Qed.

End StringFacts.

(** ** Create, update, delete *)

Module CrudFacts.
Import Types JS App.

Local Open Scope list_scope.

Lemma filter_other_id (id' : string) (l : list Customer) :
  ~ In id' (map id l) ->
  filter (fun c : Customer => negb (id c =? id')%string) l = l.
Proof.
  induction l as [ | c l IH ]; intros H; cbn [filter]; trivial.
  cbn [map In] in H.
  destruct (String.eqb_spec (id c) id') as [E | N]; [ tauto | ].
  cbn [negb]. f_equal. apply IH. tauto.
Qed.

(** With distinct ids, removing by id takes one record out of the middle. *)
Lemma filter_unique_id (id' : string) (l : list Customer) :
  NoDup (map id l) -> In id' (map id l) ->
  exists l1 c l2,
    l = l1 ++ c :: l2 /\ id c = id' /\
    filter (fun c : Customer => negb (id c =? id')%string) l = l1 ++ l2.
Proof.
  induction l as [ | c l IH ]; intros ND H; [ destruct H | ].
  cbn [map] in ND. inversion ND as [ | ? ? Hnotin ND' ]; subst.
  cbn [filter]. destruct (String.eqb_spec (id c) id') as [E | N].
  - exists [], c, l. cbn [negb app]. repeat split; trivial.
    apply filter_other_id. now rewrite <- E.
  - destruct H as [H | H]; [ contradiction | ].
    destruct (IH ND' H) as (l1 & c' & l2 & -> & Hc & Hf).
    exists (c :: l1), c', l2. cbn [negb app]. now rewrite Hf.
Qed.

(** C4.  Without confirmation the state is unchanged.  With confirmation
    every record carrying the given id is removed and every other record
    stays, in its place and unchanged; nothing but the customer list
    changes.  When ids are distinct and the id is present that is exactly
    one record; when the id is absent nothing is removed. *)
Theorem delete_removes_matching (id' : string) (st : AppState) :
  handleDeleteCustomer false id' st = st /\
  let st' := handleDeleteCustomer true id' st in
  customers st'
    = filter (fun c : Customer => negb (id c =? id')%string) (customers st) /\
  (forall c, In c (customers st') <-> In c (customers st) /\ id c <> id') /\
  (NoDup (map id (customers st)) -> In id' (map id (customers st)) ->
   exists l1 c l2,
     customers st = l1 ++ c :: l2 /\ id c = id' /\ customers st' = l1 ++ l2) /\
  (~ In id' (map id (customers st)) -> customers st' = customers st) /\
  (netflixEmails st', filterStatus st', filterEmail st', sortConfig st')
    = (netflixEmails st, filterStatus st, filterEmail st, sortConfig st).
Proof.
  split; [ reflexivity | ]. cbv zeta. cbn [handleDeleteCustomer].
  split; [ reflexivity | ]. split; [ | split; [ | split ] ].
  - intros c. cbn. rewrite filter_In.
    destruct (String.eqb_spec (id c) id'); cbn [negb]; intuition congruence.
  - intros ND H. now apply filter_unique_id.
  - intros H. now apply filter_other_id.
  - reflexivity.
Qed.

(** C10.  Saving a record that carries an id keeps the length of the list
    and every position: a record with another id is unchanged, a record
    with that id is replaced by the new data, and when no record has the
    id the list is unchanged. *)
Theorem update_replaces_in_place (now : Z) (data : Customer) (st : AppState) :
  let st' := handleSaveCustomer now (WithId data) st in
  List.length (customers st') = List.length (customers st) /\
  (forall i c, nth_error (customers st) i = Some c ->
     nth_error (customers st') i
       = Some (if (id c =? id data)%string then data else c)) /\
  (forall i, nth_error (customers st) i = None ->
     nth_error (customers st') i = None) /\
  (~ In (id data) (map id (customers st)) -> customers st' = customers st).
Proof.
  cbv zeta. cbn [handleSaveCustomer setIsCustomerModalOpen setCustomers customers].
  split; [ apply length_map | ]. split; [ | split ].
  - intros i c H. rewrite nth_error_map, H. reflexivity.
  - intros i H. rewrite nth_error_map, H. reflexivity.
  - intros H. induction (customers st) as [ | c l IH ]; cbn [map]; trivial.
    cbn [map In] in H.
    destruct (String.eqb_spec (id c) (id data)) as [E | N]; [ tauto | ].
    f_equal. apply IH. tauto.
Qed.


Lemma delete_removes_matching_witness :
  customers (handleDeleteCustomer true "1"
               (Samples.withCustomers [Samples.ann; Samples.bob]))
  = [Samples.bob].
Proof.
  destruct (proj2 (delete_removes_matching "1"
                     (Samples.withCustomers [Samples.ann; Samples.bob])))
    as (H & _).
  rewrite H. reflexivity.
Defined.

(** A confirmed delete of an id that no record carries removes nothing,
    and one of an id that two records carry removes both. *)
Lemma delete_not_exactly_one :
  customers (handleDeleteCustomer true "9"
               (Samples.withCustomers [Samples.ann; Samples.bob]))
  = [Samples.ann; Samples.bob] /\
  customers (handleDeleteCustomer true "1"
               (Samples.withCustomers [Samples.ann; Samples.bob; Samples.ann]))
  = [Samples.bob].
Proof. split; reflexivity. Qed.

Lemma update_replaces_in_place_witness :
  customers (handleSaveCustomer 0 (WithId (Samples.customerWith "9" "2024-05-01" 3))
               (Samples.withCustomers [Samples.ann; Samples.bob]))
  = [Samples.ann; Samples.bob].
Proof.
  apply (proj2 (proj2 (proj2 (update_replaces_in_place 0
           (Samples.customerWith "9" "2024-05-01" 3)
           (Samples.withCustomers [Samples.ann; Samples.bob]))))).
  cbn. intros [H | [H | []]]; discriminate.
Defined.

Lemma length_mapIndexed {A B} (f : A -> nat -> B) k l :
  List.length (mapIndexed f k l) = List.length l.
Proof.
  revert k. induction l as [ | x l IH ]; intros k; cbn; [ | rewrite IH ];
    reflexivity.
Qed.

Lemma nth_error_mapIndexed {A B} (f : A -> nat -> B) k l i :
  nth_error (mapIndexed f k l) i
  = option_map (fun x => f x (k + i)%nat) (nth_error l i).
Proof.
  revert k i. induction l as [ | x l IH ]; intros k [ | i ]; cbn; trivial.
  - now rewrite Nat.add_0_r.
  - rewrite IH. now rewrite Nat.add_succ_r.
Qed.

Lemma In_mapIndexed {A B} (f : A -> nat -> B) k l y :
  In y (mapIndexed f k l) -> exists x j, (k <= j)%nat /\ y = f x j.
Proof.
  revert k. induction l as [ | x l IH ]; intros k; cbn; [ tauto | ].
  intros [<- | H].
  - exists x, k. auto.
  - destruct (IH _ H) as (x' & j & Hj & ->). exists x', j. split; [ lia | trivial ].
Qed.

(** Elements built from different indexes by a function whose key tells the
    index have different keys. *)
Lemma NoDup_mapIndexed {A B K} (f : A -> nat -> B) (key : B -> K) k l :
  (forall x x' j j', key (f x j) = key (f x' j') -> j = j') ->
  NoDup (map key (mapIndexed f k l)).
Proof.
  intros Hinj. revert k. induction l as [ | x l IH ]; intros k; cbn.
  - constructor.
  - constructor; [ | apply IH ].
    intros H. apply in_map_iff in H. destruct H as (y & Hy & Hin).
    apply In_mapIndexed in Hin. destruct Hin as (x' & j & Hj & ->).
    apply Hinj in Hy. lia.
Qed.

Lemma NoDup_app_intro {A} (l1 l2 : list A) :
  NoDup l1 -> NoDup l2 -> (forall x, In x l2 -> ~ In x l1) -> NoDup (l1 ++ l2).
Proof.
  induction l1 as [ | a l1 IH ]; intros H1 H2 H; cbn; trivial.
  inversion H1; subst. constructor.
  - rewrite in_app_iff. intros [Hin | Hin]; [ tauto | ].
    apply (H a Hin). now left.
  - apply IH; trivial. intros x Hx Hin. apply (H x Hx). now right.
Qed.

(** C9.  Creating a record appends it, with the decimal string of the clock
    reading as its id, and leaves the existing records as they are; an
    import appends one record per row, in order, with the id
    [<clock reading>-<row index>], and the ids within one import are
    pairwise different.  The code does not compare a new id with the ids
    already in the list: distinct ids stay distinct provided the new id (of
    the new record, or of each imported one) is not in the list yet. *)
Theorem create_appends_with_timestamp_id (now : Z) (clock : nat -> Z)
    (data : CustomerFields) (rows : list ImportRow) (st : AppState) :
  (let st' := handleSaveCustomer now (WithoutId data) st in
   customers st' = customers st ++ [mkCustomer (toString now) data] /\
   (NoDup (map id (customers st)) ->
    ~ In (toString now) (map id (customers st)) ->
    NoDup (map id (customers st')))) /\
  (let st' := handleImportCustomers clock rows st in
   exists added,
     customers st' = customers st ++ added /\
     List.length added = List.length rows /\
     (forall i row, nth_error rows i = Some row ->
        exists c,
          nth_error added i = Some c /\
          id c = (toString (clock i) ++ "-" ++ toString (Z.of_nat i))%string /\
          customerName c = row_customerName row /\
          startDate c = row_startDate row /\
          monthsPaid c = row_monthsPaid row) /\
     NoDup (map id added) /\
     (NoDup (map id (customers st)) ->
      (forall x, In x (map id added) -> ~ In x (map id (customers st))) ->
      NoDup (map id (customers st')))).
Proof.
  split; cbv zeta.
  - cbn [handleSaveCustomer setIsCustomerModalOpen setCustomers customers].
    split; [ reflexivity | ].
    intros ND Hfresh. rewrite map_app. apply NoDup_app_intro; trivial.
    + cbn. constructor; [ tauto | constructor ].
    + cbn. intros x [<- | []]. exact Hfresh.
  - unfold handleImportCustomers.
    cbn [alert setIsImportModalOpen setCustomers customers].
    eexists. split; [ reflexivity | ]. split; [ apply length_mapIndexed | ].
    split; [ | split ].
    + intros i row H. rewrite nth_error_mapIndexed, H. cbn [option_map].
      eexists. split; [ reflexivity | ]. cbn. auto.
    + apply NoDup_mapIndexed. cbn [id]. intros x x' j j' H.
      now apply StringFacts.importId_inj in H.
    + intros ND Hfresh. rewrite map_app. apply NoDup_app_intro; trivial.
      apply NoDup_mapIndexed. cbn [id]. intros x x' j j' H.
      now apply StringFacts.importId_inj in H.
Qed.

Lemma create_appends_with_timestamp_id_witness :
  NoDup (map id (customers
    (handleSaveCustomer Samples.march9 (WithoutId Samples.ann)
       (Samples.withCustomers [Samples.ann; Samples.bob])))).
Proof.
  apply (proj1 (create_appends_with_timestamp_id Samples.march9 (fun _ => 0)
                  Samples.ann [] (Samples.withCustomers [Samples.ann; Samples.bob]))).
  - cbn. constructor; [ | constructor; [ | constructor ] ]; cbn.
    + intros [H | []]; discriminate.
    + tauto.
  - cbn. intros [H | [H | []]]; discriminate.
Defined.

(** Two records created while the clock shows the same millisecond get the
    same id. *)
Lemma create_twice_same_id :
  map id (customers
    (handleSaveCustomer Samples.march9 (WithoutId Samples.bob)
       (handleSaveCustomer Samples.march9 (WithoutId Samples.ann)
          Samples.initialState)))
  = ["1710000000000"; "1710000000000"].
Proof. vm_compute. reflexivity. Qed.

End CrudFacts.

(** ** The filtered and sorted view *)

Module ViewFacts.
Import Types JS App.

Local Open Scope list_scope.

(** *** The order on strings *)

Lemma ascii_compare_trans a b c :
  Ascii.compare a b = Lt -> Ascii.compare b c = Lt -> Ascii.compare a c = Lt.
Proof.
  unfold Ascii.compare. rewrite !N.compare_lt_iff. apply N.lt_trans.
Qed.

Lemma string_compare_refl s : String.compare s s = Eq.
Proof.
  induction s as [ | c s IH ]; cbn; trivial.
  unfold Ascii.compare. now rewrite N.compare_refl.
Qed.

Lemma string_compare_trans s1 s2 s3 :
  String.compare s1 s2 = Lt -> String.compare s2 s3 = Lt ->
  String.compare s1 s3 = Lt.
Proof.
  revert s2 s3. induction s1 as [ | a s1 IH ]; intros [ | b s2 ] [ | c s3 ];
    cbn; try discriminate; trivial.
  destruct (Ascii.compare a b) eqn:Eab; try discriminate;
    destruct (Ascii.compare b c) eqn:Ebc; try discriminate; intros H1 H2.
  - apply Ascii.compare_eq_iff in Eab, Ebc. subst.
    unfold Ascii.compare. rewrite N.compare_refl. eauto.
  - apply Ascii.compare_eq_iff in Eab. subst. now rewrite Ebc.
  - apply Ascii.compare_eq_iff in Ebc. subst. now rewrite Eab.
  - now rewrite (ascii_compare_trans a b c).
Qed.

Lemma string_ltb_trans s1 s2 s3 :
  String.ltb s1 s2 = true -> String.ltb s2 s3 = true -> String.ltb s1 s3 = true.
Proof.
  unfold String.ltb. intros H1 H2.
  destruct (String.compare s1 s2) eqn:E1; try discriminate.
  destruct (String.compare s2 s3) eqn:E2; try discriminate.
  now rewrite (string_compare_trans s1 s2 s3).
Qed.

Lemma string_ltb_irrefl s : String.ltb s s = false.
Proof. unfold String.ltb. now rewrite string_compare_refl. Qed.

Lemma string_ltb_total s1 s2 :
  s1 <> s2 -> String.ltb s1 s2 = true \/ String.ltb s2 s1 = true.
Proof.
  intros N. unfold String.ltb. rewrite (String.compare_antisym s2 s1).
  destruct (String.compare s1 s2) eqn:E; cbn; auto.
  apply String.compare_eq_iff in E. contradiction.
Qed.

(** *** The order on values *)

Lemma lt_trans a b c : lt a b = true -> lt b c = true -> lt a c = true.
Proof.
  destruct a as [x | [x | ] | [x | ] | ], b as [y | [y | ] | [y | ] | ],
    c as [z | [z | ] | [z | ] | ]; cbn; try discriminate.
  - apply string_ltb_trans.
  - rewrite !Z.ltb_lt. lia.
  - rewrite !Z.ltb_lt. lia.
Qed.

Lemma lt_irrefl a : lt a a = false.
Proof.
  destruct a as [x | [x | ] | [x | ] | ]; cbn; trivial.
  - apply string_ltb_irrefl.
  - apply Z.ltb_irrefl.
  - apply Z.ltb_irrefl.
Qed.

Lemma lt_total a b :
  sameKind a b -> ordered a = true -> ordered b = true -> a <> b ->
  lt a b = true \/ lt b a = true.
Proof.
  destruct a as [x | [x | ] | [x | ] | ], b as [y | [y | ] | [y | ] | ];
    cbn; try tauto; try discriminate; intros _ _ _ N.
  - apply string_ltb_total. congruence.
  - rewrite !Z.ltb_lt. assert (x <> y) by congruence. lia.
  - rewrite !Z.ltb_lt. assert (x <> y) by congruence. lia.
Qed.

Lemma getField_sameKind k a b : sameKind (getField k a) (getField k b).
Proof.
  unfold getField.
  repeat match goal with
    | |- context [if (?x =? ?y)%string then _ else _] =>
        destruct (x =? y)%string; [ exact I | ]
    end.
  exact I.
Qed.

(** *** Stable insertion sort *)

Section SortFacts.
Context {A : Type}.
Variable comparefn : A -> A -> Z.

Lemma insert_perm x l : Permutation (insert comparefn x l) (x :: l).
Proof.
  induction l as [ | y l IH ]; cbn; [ reflexivity | ].
  destruct (comparefn x y <=? 0); [ reflexivity | ].
  rewrite IH. apply perm_swap.
Qed.

Lemma sort_perm l : Permutation (sort comparefn l) l.
Proof.
  induction l as [ | x l IH ]; cbn; [ constructor | ].
  rewrite insert_perm. now constructor.
Qed.

Variable R : A -> A -> Prop.
Hypothesis R_trans : forall a b c, R a b -> R b c -> R a c.

Lemma insert_sorted x l :
  Forall (agrees comparefn R x) l -> StronglySorted R l ->
  StronglySorted R (insert comparefn x l).
Proof.
  induction l as [ | y l IH ]; intros Hx Hs; cbn.
  - repeat constructor.
  - inversion Hx as [ | ? ? [Hle Hgt] Hx' ]; subst.
    apply StronglySorted_inv in Hs. destruct Hs as [Hs Hy].
    destruct (Z.leb_spec (comparefn x y) 0) as [L | G].
    + constructor; [ now constructor | ].
      constructor; [ auto | ].
      eapply Forall_impl; [ | exact Hy ]. intros z Hz. eauto.
    + constructor; [ auto | ].
      rewrite (insert_perm x l). constructor; auto.
Qed.

Lemma sort_sorted l :
  ForallOrdPairs (agrees comparefn R) l -> StronglySorted R (sort comparefn l).
Proof.
  induction 1 as [ | x l Hx Hl IH ]; cbn; [ constructor | ].
  apply insert_sorted; trivial.
  now rewrite (sort_perm l).
Qed.

End SortFacts.

Section Orders.
Context {A : Type}.
Variable R : A -> A -> Prop.
Hypothesis R_trans : forall a b c, R a b -> R b c -> R a c.
Hypothesis R_irrefl : forall a, ~ R a a.

(** A list has at most one arrangement that is sorted by a strict order. *)
Lemma sorted_unique l1 l2 :
  StronglySorted R l1 -> StronglySorted R l2 -> Permutation l1 l2 -> l1 = l2.
Proof.
  revert l2. induction l1 as [ | a l1 IH ]; intros l2 S1 S2 P.
  - apply Permutation_nil in P. now subst.
  - destruct l2 as [ | b l2 ].
    + apply Permutation_sym, Permutation_nil in P. discriminate.
    + apply StronglySorted_inv in S1, S2.
      destruct S1 as [S1 Ha], S2 as [S2 Hb].
      assert (a = b) as ->.
      { assert (In a (b :: l2)) as Ia
          by (apply (Permutation_in _ P); now left).
        assert (In b (a :: l1)) as Ib
          by (apply (Permutation_in _ (Permutation_sym P)); now left).
        destruct Ia as [E | Ia]; [ now subst | ].
        destruct Ib as [E | Ib]; [ now subst | ].
        rewrite Forall_forall in Ha, Hb.
        exfalso. apply (R_irrefl a). eauto. }
      f_equal. apply IH; trivial. eapply Permutation_cons_inv; eauto.
Qed.

Lemma sorted_app l1 l2 :
  StronglySorted R l1 -> StronglySorted R l2 ->
  (forall x y, In x l1 -> In y l2 -> R x y) -> StronglySorted R (l1 ++ l2).
Proof.
  induction l1 as [ | a l1 IH ]; intros S1 S2 H; cbn; trivial.
  apply StronglySorted_inv in S1. destruct S1 as [S1 Ha].
  constructor.
  - apply IH; trivial. intros x y Hx Hy. apply H; trivial. now right.
  - apply Forall_app. split; trivial.
    apply Forall_forall. intros y Hy. apply H; trivial. now left.
Qed.

End Orders.

Lemma sorted_rev {A} (R : A -> A -> Prop) l :
  StronglySorted R l -> StronglySorted (fun a b => R b a) (rev l).
Proof.
  induction l as [ | a l IH ]; intros S; cbn; [ constructor | ].
  apply StronglySorted_inv in S. destruct S as [S Ha].
  apply sorted_app; auto.
  - repeat constructor.
  - intros x y Hx [<- | []]. rewrite Forall_forall in Ha.
    apply Ha. now apply in_rev.
Qed.

(** A symmetric relation that holds between the elements of a list holds
    between those of its permutations. *)
Lemma ForallOrdPairs_perm {A} (P : A -> A -> Prop) l l' :
  (forall a b, P a b -> P b a) ->
  Permutation l l' -> ForallOrdPairs P l -> ForallOrdPairs P l'.
Proof.
  intros Psym. induction 1 as [ | x l l' HP IH | x y l | l l' l'' ? IH1 ? IH2 ];
    intros HF; auto.
  - inversion HF; subst. constructor; auto.
    eapply Permutation_Forall; eauto.
  - inversion HF as [ | ? ? Hy H' ]; subst.
    inversion H' as [ | ? ? Hx H'' ]; subst.
    inversion Hy; subst.
    constructor; [ constructor; auto | constructor; auto ].
Qed.

Lemma ForallOrdPairs_filter {A} (P : A -> A -> Prop) f l :
  ForallOrdPairs P l -> ForallOrdPairs P (filter f l).
Proof.
  induction 1 as [ | x l Hx Hl IH ]; cbn; [ constructor | ].
  destruct (f x); trivial. constructor; trivial.
  rewrite Forall_forall in *. intros y Hy. apply Hx.
  now apply filter_In in Hy.
Qed.

Lemma ForallOrdPairs_impl {A} (P Q : A -> A -> Prop) l :
  (forall a b, P a b -> Q a b) -> ForallOrdPairs P l -> ForallOrdPairs Q l.
Proof.
  intros H. induction 1 as [ | x l Hx Hl IH ]; constructor; trivial.
  eapply Forall_impl; [ | exact Hx ]. intros y. apply H.
Qed.

Lemma filter_perm {A} (f : A -> bool) l l' :
  Permutation l l' -> Permutation (filter f l) (filter f l').
Proof.
  induction 1 as [ | x l l' HP IH | x y l | l l' l'' ? IH1 ? IH2 ]; cbn.
  - constructor.
  - destruct (f x); auto.
  - destruct (f x), (f y); auto. apply perm_swap.
  - etransitivity; eauto.
Qed.

(** *** The view *)

Lemma displayCustomers_filter processed fs fe sc :
  Permutation (displayCustomers processed fs fe sc)
    (filter (fun c => Spec.passesStatus fs c && Spec.passesEmail fe c) processed)
  /\ ((key sc =? "")%string = true ->
      displayCustomers processed fs fe sc
      = filter (fun c => Spec.passesStatus fs c && Spec.passesEmail fe c)
               processed).
Proof.
  assert (forall l : list ProcessedCustomer,
             (if negb (fe =? "All")%string
              then filter (fun c : ProcessedCustomer =>
                             (netflixEmail c =? fe)%string)
                     (match fs with
                      | OnlyStatus s =>
                          filter (fun c : ProcessedCustomer =>
                                    SubscriptionStatus_eqb (status c) s) l
                      | AllStatuses => l
                      end)
              else match fs with
                   | OnlyStatus s =>
                       filter (fun c : ProcessedCustomer =>
                                 SubscriptionStatus_eqb (status c) s) l
                   | AllStatuses => l
                   end)
             = filter (fun c => Spec.passesStatus fs c && Spec.passesEmail fe c) l)
    as E.
  { intros l. unfold Spec.passesStatus, Spec.passesEmail.
    induction l as [ | c l IH ]; [ destruct (fe =? "All")%string, fs; reflexivity | ].
    destruct (fe =? "All")%string, fs as [ | s ]; cbn [negb orb filter] in *;
      try destruct (SubscriptionStatus_eqb (status c) s);
      cbn [andb filter];
      try destruct (netflixEmail c =? fe)%string; cbn [andb];
      rewrite <- ?IH; try reflexivity; f_equal; assumption. }
  unfold displayCustomers. cbv zeta. rewrite E. split.
  - destruct (negb (key sc =? "")%string); [ apply sort_perm | reflexivity ].
  - intros ->. reflexivity.
Qed.

(** C5.  The view holds, up to the order the sort gives them, exactly the
    processed customers that pass both the status predicate and the email
    predicate; with both filters on "All" that is the whole list, and with
    a status selected (email on "All") exactly the customers of that
    status. *)
Theorem filters_are_conjunctive (processed : list ProcessedCustomer)
    (fs : StatusFilter) (fe : string) (sc : SortConfig) :
  Permutation (displayCustomers processed fs fe sc)
    (filter (fun c => Spec.passesStatus fs c && Spec.passesEmail fe c) processed)
  /\ (forall c,
       In c (displayCustomers processed fs fe sc) <->
       In c processed /\ Spec.passesStatus fs c = true
       /\ Spec.passesEmail fe c = true)
  /\ Permutation (displayCustomers processed AllStatuses "All" sc) processed
  /\ (forall s,
       Permutation (displayCustomers processed (OnlyStatus s) "All" sc)
         (filter (fun c : ProcessedCustomer => SubscriptionStatus_eqb (status c) s)
                 processed)
       /\ forall c,
           In c (displayCustomers processed (OnlyStatus s) "All" sc) <->
           In c processed /\ status c = s).
Proof.
  pose proof (fun fs fe => proj1 (displayCustomers_filter processed fs fe sc)) as P.
  split; [ apply P | ]. split; [ | split ].
  - intros c. split.
    + intros H. apply (Permutation_in _ (P fs fe)) in H.
      apply filter_In in H. rewrite andb_true_iff in H. tauto.
    + intros (H1 & H2 & H3).
      apply (Permutation_in _ (Permutation_sym (P fs fe))).
      apply filter_In. rewrite andb_true_iff. tauto.
  - rewrite (P AllStatuses "All"). cbn. clear P.
    induction processed as [ | c l IH ]; cbn; auto.
  - intros s.
    assert (Permutation (displayCustomers processed (OnlyStatus s) "All" sc)
              (filter (fun c : ProcessedCustomer =>
                         SubscriptionStatus_eqb (status c) s) processed)) as Ps.
    { rewrite (P (OnlyStatus s) "All"). apply Permutation_refl'.
      apply filter_ext. intros c. cbn. now rewrite andb_true_r. }
    split; [ exact Ps | ].
    intros c.
    assert (SubscriptionStatus_eqb (status c) s = true <-> status c = s) as Es
      by (destruct (status c), s; cbn; split; congruence).
    rewrite <- Es. split.
    + intros H. apply (Permutation_in _ Ps) in H. now apply filter_In in H.
    + intros H. apply (Permutation_in _ (Permutation_sym Ps)).
      now apply filter_In.
Qed.

(** *** Sorting *)

Lemma distinct_ordered_distinguishes k l :
  NoDup (map (getField k) l) ->
  Forall (fun c => ordered (getField k c) = true) l ->
  ForallOrdPairs (Spec.distinguishes k) l.
Proof.
  induction l as [ | a l IH ]; intros ND Ho; [ constructor | ].
  cbn [map] in ND. inversion ND as [ | ? ? Hnotin ND' ]; subst.
  inversion Ho as [ | ? ? Ha Ho' ]; subst.
  constructor; [ | auto ].
  rewrite Forall_forall in *. intros b Hb. apply lt_total; auto.
  - apply getField_sameKind.
  - intros E. apply Hnotin. rewrite E. now apply in_map.
Qed.

Lemma compareBy_ascending k a b :
  Spec.distinguishes k a b ->
  agrees (compareBy (mkSortConfig k ascending))
         (fun a b => lt (getField k a) (getField k b) = true) a b.
Proof.
  unfold Spec.distinguishes, agrees, compareBy, gt. cbn [key direction].
  destruct (lt (getField k b) (getField k a)) eqn:E1;
    destruct (lt (getField k a) (getField k b)) eqn:E2;
    intros [H | H]; try discriminate; split; intros; trivial; lia.
Qed.

Lemma compareBy_descending k a b :
  Spec.distinguishes k a b ->
  agrees (compareBy (mkSortConfig k descending))
         (fun a b => lt (getField k b) (getField k a) = true) a b.
Proof.
  unfold Spec.distinguishes, agrees, compareBy, gt. cbn [key direction].
  destruct (lt (getField k b) (getField k a)) eqn:E1;
    destruct (lt (getField k a) (getField k b)) eqn:E2;
    intros [H | H]; try discriminate; split; intros; trivial; lia.
Qed.

Lemma distinguishes_sym k a b : Spec.distinguishes k a b -> Spec.distinguishes k b a.
Proof. unfold Spec.distinguishes. tauto. Qed.

Lemma sort_ascending k l :
  ForallOrdPairs (Spec.distinguishes k) l ->
  Spec.increasing k (sort (compareBy (mkSortConfig k ascending)) l).
Proof.
  intros H. apply sort_sorted.
  - intros a b c. apply lt_trans.
  - eapply ForallOrdPairs_impl; [ | exact H ]. apply compareBy_ascending.
Qed.

Lemma sort_descending k l :
  ForallOrdPairs (Spec.distinguishes k) l ->
  sort (compareBy (mkSortConfig k descending)) l
  = rev (sort (compareBy (mkSortConfig k ascending)) l).
Proof.
  intros H.
  apply (sorted_unique (fun a b => lt (getField k b) (getField k a) = true)).
  - intros a b c H1 H2. eapply lt_trans; eauto.
  - intros a. rewrite lt_irrefl. discriminate.
  - apply sort_sorted.
    + intros a b c H1 H2. eapply lt_trans; eauto.
    + eapply ForallOrdPairs_impl; [ | exact H ]. apply compareBy_descending.
  - apply (sorted_rev (fun a b => lt (getField k a) (getField k b) = true)).
    now apply sort_ascending.
  - rewrite <- Permutation_rev. rewrite !sort_perm. reflexivity.
Qed.

Lemma sort_deterministic k l l' :
  ForallOrdPairs (Spec.distinguishes k) l -> Permutation l l' ->
  sort (compareBy (mkSortConfig k ascending)) l'
  = sort (compareBy (mkSortConfig k ascending)) l.
Proof.
  intros H P.
  apply (sorted_unique (fun a b => lt (getField k a) (getField k b) = true)).
  - intros a b c. apply lt_trans.
  - intros a. rewrite lt_irrefl. discriminate.
  - apply sort_ascending.
    eapply ForallOrdPairs_perm; eauto. apply distinguishes_sym.
  - now apply sort_ascending.
  - rewrite !sort_perm. now symmetry.
Qed.

(** The list the sort of [displayCustomers] is applied to. *)
Lemma displayCustomers_sort processed fs fe sc :
  (key sc =? "")%string = false ->
  displayCustomers processed fs fe sc
  = sort (compareBy sc)
         (filter (fun c => Spec.passesStatus fs c && Spec.passesEmail fe c)
                 processed).
Proof.
  intros Hk.
  pose proof (proj2 (displayCustomers_filter processed fs fe
                       (mkSortConfig "" (direction sc))) eq_refl) as E.
  unfold displayCustomers in *. cbv zeta in *. rewrite Hk.
  cbn [key negb] in *. change (("" =? "")%string) with true in E.
  cbn [negb] in E. now rewrite E.
Qed.

(** C6.  When the values of the sort key are pairwise different and none
    of them is NaN, an Invalid Date or missing, the view sorted in
    descending direction is the reverse of the view sorted in ascending
    direction; the ascending view is strictly increasing in the key and is
    the same for every arrangement of the input.  Clicking a key other than
    the current one sorts ascending, and clicking it again descending. *)
Theorem sort_twice_reverses (processed : list ProcessedCustomer)
    (fs : StatusFilter) (fe : string) (k : string) :
  k <> "" ->
  NoDup (map (getField k) processed) ->
  Forall (fun c => ordered (getField k c) = true) processed ->
  let asc := displayCustomers processed fs fe (mkSortConfig k ascending) in
  let desc := displayCustomers processed fs fe (mkSortConfig k descending) in
  desc = rev asc /\
  Spec.increasing k asc /\
  (forall processed',
      Permutation processed processed' ->
      displayCustomers processed' fs fe (mkSortConfig k ascending) = asc) /\
  (forall st,
      key (sortConfig st) <> k ->
      sortConfig (handleSort k st) = mkSortConfig k ascending /\
      sortConfig (handleSort k (handleSort k st)) = mkSortConfig k descending) /\
  (forall st,
      sortConfig st = mkSortConfig k ascending ->
      sortConfig (handleSort k st) = mkSortConfig k descending).
Proof.
  intros Hk ND Ho. cbv zeta.
  apply String.eqb_neq in Hk.
  rewrite !displayCustomers_sort by exact Hk.
  pose proof (distinct_ordered_distinguishes k processed ND Ho) as D.
  set (f := fun c => Spec.passesStatus fs c && Spec.passesEmail fe c).
  assert (ForallOrdPairs (Spec.distinguishes k) (filter f processed)) as Df
    by now apply ForallOrdPairs_filter.
  split; [ now apply sort_descending | ].
  split; [ now apply sort_ascending | ].
  split; [ | split ].
  - intros processed' P. rewrite displayCustomers_sort by exact Hk.
    apply sort_deterministic; trivial. now apply filter_perm.
  - intros st Hst. apply String.eqb_neq in Hst.
    unfold handleSort. cbn [sortConfig setSortConfig key direction].
    rewrite Hst, String.eqb_refl. cbn. auto.
  - intros st Hst. unfold handleSort. rewrite Hst.
    cbn [sortConfig setSortConfig key direction]. rewrite String.eqb_refl.
    reflexivity.
Qed.

Lemma sort_twice_reverses_witness :
  displayCustomers (Samples.processedOn9March [Samples.bob; Samples.ann])
    AllStatuses "All" (mkSortConfig "startDate" descending)
  = rev (displayCustomers (Samples.processedOn9March [Samples.bob; Samples.ann])
           AllStatuses "All" (mkSortConfig "startDate" ascending)).
Proof.
  apply (sort_twice_reverses
           (Samples.processedOn9March [Samples.bob; Samples.ann])
           AllStatuses "All" "startDate").
  - discriminate.
  - cbn. constructor; [ | constructor; [ | constructor ] ]; cbn.
    + intros [H | []]; discriminate.
    + tauto.
  - repeat constructor.
Defined.

(** With one customer whose start date does not parse, the values of
    [daysLeft] are 6 and NaN: they differ, no comparison between them
    succeeds, and both directions leave the two records as they were. *)
Lemma sort_with_NaN_not_reversed :
  map (getField "daysLeft")
      (Samples.processedOn9March [Samples.ann; Samples.eve])
    = [VNumber (Some 6); VNumber None] /\
  map (fun c : ProcessedCustomer => id c)
      (displayCustomers
            (Samples.processedOn9March [Samples.ann; Samples.eve])
            AllStatuses "All" (mkSortConfig "daysLeft" ascending))
    = ["1"; "3"] /\
  map (fun c : ProcessedCustomer => id c)
      (displayCustomers
            (Samples.processedOn9March [Samples.ann; Samples.eve])
            AllStatuses "All" (mkSortConfig "daysLeft" descending))
    = ["1"; "3"].
Proof. repeat split. Qed.

End ViewFacts.

(** ** Persisted state *)

Module PersistenceFacts.
Import Types JS App Persistence.

Local Open Scope list_scope.

(** *** Properties of objects *)

Lemma getProp_setProp_same k v o : getProp k (setProp k v o) = Some v.
Proof.
  induction o as [ | [k' v'] o IH ]; cbn.
  - now rewrite String.eqb_refl.
  - destruct (String.eqb_spec k' k); cbn.
    + now rewrite String.eqb_refl.
    + destruct (String.eqb_spec k' k); [ contradiction | exact IH ].
Qed.

Lemma getProp_setProp_other k k' v o :
  k' <> k -> getProp k (setProp k' v o) = getProp k o.
Proof.
  intros N. induction o as [ | [k0 v0] o IH ]; cbn.
  - destruct (String.eqb_spec k' k); [ contradiction | reflexivity ].
  - destruct (String.eqb_spec k0 k'); cbn.
    + subst. destruct (String.eqb_spec k' k); [ contradiction | ].
      reflexivity.
    + destruct (String.eqb_spec k0 k); [ reflexivity | exact IH ].
Qed.

Lemma getProp_deleteProp_same k o : getProp k (deleteProp k o) = None.
Proof.
  induction o as [ | [k' v'] o IH ]; cbn; trivial.
  destruct (String.eqb_spec k' k); cbn; trivial.
  destruct (String.eqb_spec k' k); [ contradiction | exact IH ].
Qed.

Lemma getProp_deleteProp_other k k' o :
  k' <> k -> getProp k (deleteProp k' o) = getProp k o.
Proof.
  intros N. induction o as [ | [k0 v0] o IH ]; cbn; trivial.
  destruct (String.eqb_spec k0 k'); cbn.
  - subst. destruct (String.eqb_spec k' k); [ contradiction | exact IH ].
  - destruct (String.eqb_spec k0 k); [ reflexivity | exact IH ].
Qed.

(** Writing the value a property already has changes nothing. *)
Lemma setProp_same k v o : getProp k o = Some v -> setProp k v o = o.
Proof.
  induction o as [ | [k' v'] o IH ]; cbn; [ discriminate | ].
  destruct (String.eqb_spec k' k).
  - intros [= ->]. now subst.
  - intros H. now rewrite IH.
Qed.

Lemma deleteProp_idem k o : deleteProp k (deleteProp k o) = deleteProp k o.
Proof.
  unfold deleteProp. induction o as [ | [k' v'] o IH ]; cbn; trivial.
  destruct (String.eqb_spec k' k); cbn; trivial.
  destruct (String.eqb_spec k' k); [ contradiction | ]. cbn. now rewrite IH.
Qed.

(** *** The migration *)

Lemma orDefault_truthy v d : truthy (Some v) = true -> orDefault (Some v) d = v.
Proof. unfold orDefault, or. now intros ->. Qed.

Lemma orDefault_falsy a d : truthy a = false -> orDefault a d = d.
Proof. unfold orDefault, or. now intros ->. Qed.

Lemma orDefault_default d : orDefault (Some d) d = d.
Proof. unfold orDefault, or. now destruct (truthy (Some d)). Qed.

(** [a || d] is a fixed point of [_ || d]. *)
Lemma orDefault_idem a d : orDefault (Some (orDefault a d)) d = orDefault a d.
Proof.
  destruct (truthy a) eqn:Ta.
  - destruct a as [v | ]; [ | discriminate ].
    rewrite (orDefault_truthy v d Ta). now apply orDefault_truthy.
  - rewrite (orDefault_falsy a d Ta). apply orDefault_default.
Qed.

Lemma orDefault_or_idem a b d :
  orDefault (or (Some (orDefault (or a b) d)) None) d = orDefault (or a b) d.
Proof.
  unfold or at 1. destruct (truthy (Some (orDefault (or a b) d))) eqn:T.
  - apply orDefault_idem.
  - rewrite (orDefault_falsy None d eq_refl).
    destruct (truthy (or a b)) eqn:Tab.
    + destruct (or a b) as [v | ]; [ | discriminate ].
      rewrite (orDefault_truthy v d Tab) in T. congruence.
    + now rewrite (orDefault_falsy _ d Tab).
Qed.

Lemma migrate_migrated props p n ct a :
  migrate (JObject (migrated props p n ct a))
  = Some (JObject (migrated props p n ct a)).
Proof.
  unfold migrate. cbn [readProp spread].
  set (o := migrated props p n ct a).
  assert (getProp "profileName" o = Some (orDefault p (JString ""))) as Hp.
  { unfold o, migrated.
    rewrite getProp_deleteProp_other, !getProp_setProp_other by discriminate.
    apply getProp_setProp_same. }
  assert (getProp "note" o = Some (orDefault (or n ct) (JString ""))) as Hn.
  { unfold o, migrated.
    rewrite getProp_deleteProp_other, getProp_setProp_other by discriminate.
    apply getProp_setProp_same. }
  assert (getProp "accountType" o
          = Some (orDefault a (JString (accountTypeString Share)))) as Ha.
  { unfold o, migrated. rewrite getProp_deleteProp_other by discriminate.
    apply getProp_setProp_same. }
  assert (getProp "contact" o = None) as Hc
    by apply getProp_deleteProp_same.
  rewrite Hp, Hn, Ha, Hc.
  rewrite !orDefault_idem, orDefault_or_idem.
  rewrite (setProp_same "profileName") by exact Hp.
  rewrite (setProp_same "note") by exact Hn.
  rewrite (setProp_same "accountType") by exact Ha.
  unfold o, migrated at 1. now rewrite deleteProp_idem.
Qed.

Lemma migrate_Some o o' :
  migrate o = Some o' ->
  exists props p n ct a, o' = JObject (migrated props p n ct a).
Proof.
  unfold migrate.
  destruct (readProp o "profileName") as [p | ]; [ | discriminate ].
  destruct (readProp o "note") as [n | ]; [ | discriminate ].
  destruct (readProp o "contact") as [ct | ]; [ | discriminate ].
  destruct (readProp o "accountType") as [a | ]; [ | discriminate ].
  intros [= <-]. now exists (spread o), p, n, ct, a.
Qed.

Lemma migrate_idempotent o o' : migrate o = Some o' -> migrate o' = Some o'.
Proof.
  intros H. destruct (migrate_Some o o' H) as (props & p & n & ct & a & ->).
  apply migrate_migrated.
Qed.

Lemma mapThrowing_migrate_idempotent l l' :
  mapThrowing migrate l = Some l' -> mapThrowing migrate l' = Some l'.
Proof.
  revert l'. induction l as [ | o l IH ]; intros l'; cbn.
  - intros [= <-]. reflexivity.
  - destruct (migrate o) as [o' | ] eqn:Eo; [ | discriminate ].
    destruct (mapThrowing migrate l) as [l0 | ]; [ | discriminate ].
    intros [= <-]. cbn. rewrite (migrate_idempotent o o' Eo).
    now rewrite (IH l0 eq_refl).
Qed.

(** The object of a record of the current schema is a fixed point. *)
Lemma orDefault_string s : orDefault (Some (JString s)) (JString "") = JString s.
Proof.
  unfold orDefault, or. cbn [truthy].
  destruct (String.eqb_spec s ""); cbn; [ now subst | reflexivity ].
Qed.

Lemma orDefault_or_string s :
  orDefault (or (Some (JString s)) None) (JString "") = JString s.
Proof.
  unfold orDefault, or. cbn [truthy].
  destruct (String.eqb_spec s ""); cbn; [ now subst | ].
  destruct (String.eqb_spec s ""); [ contradiction | reflexivity ].
Qed.

Lemma migrate_customerObj c : migrate (customerObj c) = Some (customerObj c).
Proof.
  unfold migrate, customerObj. cbn [readProp spread].
  cbn - [orDefault or setProp deleteProp].
  rewrite orDefault_string, orDefault_or_string.
  destruct (accountType c); reflexivity.
Qed.

Lemma mapThrowing_migrate_customers cs :
  mapThrowing migrate (map customerObj cs) = Some (map customerObj cs).
Proof.
  induction cs as [ | c cs IH ]; cbn [map mapThrowing]; trivial.
  now rewrite migrate_customerObj, IH.
Qed.

(** *** Saving and loading *)

Lemma getItem_setItem_same k v st : getItem k (setItem k v st) = Some v.
Proof. unfold getItem, setItem. now rewrite String.eqb_refl. Qed.

Lemma getItem_setItem_other k k' v st :
  k <> k' -> getItem k (setItem k' v st) = getItem k st.
Proof.
  intros N. unfold getItem, setItem.
  destruct (String.eqb_spec k k'); [ contradiction | reflexivity ].
Qed.

(** C7.  Whenever the platform's JSON codec reads back what it wrote for
    the customer list and for the email list (and rejects the empty text),
    loading after saving gives the same customer records, without any
    defaulting taking effect, and the same emails, and nothing is logged.
    The migration is idempotent: a record it produced, and a list of such
    records, is left as it is by a second pass. *)
Theorem save_load_roundtrip (JSON_parse : string -> option JSON)
    (JSON_stringify : JSON -> string)
    (customers : list Customer) (emails : list string) (storage : Storage) :
  JSON_parse "" = None ->
  JSON_parse (JSON_stringify (JArray (map customerObj customers)))
    = Some (JArray (map customerObj customers)) ->
  JSON_parse (JSON_stringify (JArray (map JString emails)))
    = Some (JArray (map JString emails)) ->
  let storage' :=
    persistNetflixEmails JSON_stringify emails
      (persistCustomers JSON_stringify customers storage) in
  initCustomers JSON_parse storage' = (map customerObj customers, []) /\
  initNetflixEmails JSON_parse storage' = (JArray (map JString emails), []) /\
  (forall c, migrate (customerObj c) = Some (customerObj c)) /\
  (forall o o', migrate o = Some o' -> migrate o' = Some o') /\
  (forall l l', mapThrowing migrate l = Some l' ->
                mapThrowing migrate l' = Some l').
Proof.
  intros Hempty Hc He. cbv zeta.
  unfold initCustomers, initNetflixEmails, persistNetflixEmails, persistCustomers.
  rewrite getItem_setItem_other, !getItem_setItem_same by discriminate.
  split; [ | split; [ | split; [ | split ] ] ].
  - destruct (String.eqb_spec
                (JSON_stringify (JArray (map customerObj customers))) "")
      as [E | N]; [ rewrite E in Hc; congruence | ].
    cbn [negb]. rewrite Hc. now rewrite mapThrowing_migrate_customers.
  - destruct (String.eqb_spec
                (JSON_stringify (JArray (map JString emails))) "")
      as [E | N]; [ rewrite E in He; congruence | ].
    cbn [negb]. now rewrite He.
  - apply migrate_customerObj.
  - apply migrate_idempotent.
  - apply mapThrowing_migrate_idempotent.
Qed.

Lemma save_load_roundtrip_witness :
  initCustomers RefCodec.parse
    (persistNetflixEmails RefCodec.stringify ["a@x.org"; "b@x.org"]
       (persistCustomers RefCodec.stringify [Samples.ann; Samples.bob]
          Samples.emptyStorage))
  = ([customerObj Samples.ann; customerObj Samples.bob], []).
Proof.
  apply (save_load_roundtrip RefCodec.parse RefCodec.stringify
           [Samples.ann; Samples.bob] ["a@x.org"; "b@x.org"]
           Samples.emptyStorage); vm_compute; reflexivity.
Defined.

(** C8.  A stored text that [JSON.parse] rejects never makes the
    initializers fail: the customer list starts empty and the email pool
    starts as the default pair.  For a non-empty text the SyntaxError is
    caught and logged; the empty text is taken for "nothing saved", it is
    not parsed and nothing is logged.  Whatever is stored, a logged failure
    of the customers initializer leaves the list empty. *)
Theorem malformed_state_falls_back (JSON_parse : string -> option JSON)
    (storage : Storage) (text : string) :
  JSON_parse text = None ->
  (getItem "customers" storage = Some text ->
   initCustomers JSON_parse storage
   = ([], if (text =? "")%string then []
          else [mkLog "Failed to parse customers from localStorage"
                      SyntaxError])) /\
  (getItem "netflixEmails" storage = Some text ->
   initNetflixEmails JSON_parse storage
   = (defaultEmails,
      if (text =? "")%string then []
      else [mkLog "Failed to parse emails from localStorage" SyntaxError])) /\
  (forall storage',
      snd (initCustomers JSON_parse storage') <> [] ->
      fst (initCustomers JSON_parse storage') = []).
Proof.
  intros Hp. split; [ | split ].
  - intros Hg. unfold initCustomers. rewrite Hg.
    destruct (text =? "")%string; cbn [negb]; [ reflexivity | ].
    now rewrite Hp.
  - intros Hg. unfold initNetflixEmails. rewrite Hg.
    destruct (text =? "")%string; cbn [negb]; [ reflexivity | ].
    now rewrite Hp.
  - intros storage'. unfold initCustomers.
    destruct (getItem "customers" storage') as [t | ]; [ | now cbn ].
    destruct (negb (t =? "")%string); [ | now cbn ].
    destruct (JSON_parse t) as [ [ | | | | l | ] | ]; try reflexivity.
    destruct (mapThrowing migrate l); [ now cbn | reflexivity ].
Qed.

Lemma malformed_state_falls_back_witness :
  initCustomers RefCodec.parse (Samples.storageWith "{oops" "[1,") =
    ([], [mkLog "Failed to parse customers from localStorage" SyntaxError]).
Proof.
  apply (proj1 (malformed_state_falls_back RefCodec.parse
                  (Samples.storageWith "{oops" "[1,") "{oops" eq_refl)).
  reflexivity.
Defined.

(** The empty text is rejected by the parser, yet loading it logs nothing:
    the initializers return their fallback values without parsing. *)
Lemma empty_text_not_logged :
  RefCodec.parse "" = None /\
  initCustomers RefCodec.parse (Samples.storageWith "" "") = ([], []) /\
  initNetflixEmails RefCodec.parse (Samples.storageWith "" "")
    = (defaultEmails, []).
Proof. repeat split. Qed.

End PersistenceFacts.

(** ** More on status and expiry *)

Module ExpiryFacts.
Import Types JS App JSDate DateFacts StatusFacts HistoryFacts.

(** X1.  With valid dates the status is read off the clock: Expired when
    the expiry date is not after today's local midnight, ExpiringSoon when
    it is after it by at most seven days, Active when by more. *)
Theorem status_by_time (LocalTZA : Z -> bool -> Z) (now : Z)
    (customer : Customer) (e t : Z) :
  expiryDate (calculateSubscriptionDetails LocalTZA now customer) = Some e ->
  setHoursZero LocalTZA now = Some t ->
  let s := status (calculateSubscriptionDetails LocalTZA now customer) in
  (s = Expired <-> e <= t) /\
  (s = ExpiringSoon <-> t < e <= t + 7 * msPerDay) /\
  (s = Active <-> t + 7 * msPerDay < e).
Proof.
  unfold calculateSubscriptionDetails. cbn [expiryDate status].
  intros -> ->. cbv zeta. cbn [option_map leNum]. unfold msPerDay.
  set (n := ceilDiv (e - t) (1000 * 3600 * 24)).
  assert ((n - 1) * (1000 * 3600 * 24) < e - t <= n * (1000 * 3600 * 24)) as B
    by (apply ceilDiv_spec; [ lia | reflexivity ]).
  destruct (Z.leb_spec n 0); [ | destruct (Z.leb_spec n 7) ];
    (split; [ | split ]); split; intros Hs; try discriminate;
    try reflexivity; lia.
Qed.

Lemma status_by_time_witness :
  status (calculateSubscriptionDetails (fixedZone 0) Samples.march9 Samples.ann)
  = ExpiringSoon.
Proof.
  apply (proj1 (proj2 (status_by_time (fixedZone 0) Samples.march9 Samples.ann
                         1710460800000 1709942400000 eq_refl eq_refl))).
  unfold msPerDay. lia.
Defined.

(** X2.  A customer whose start date does not parse gets an Invalid expiry
    date, NaN days left and the status Active, and is counted in no month
    of the history: the history is the same with and without the record. *)
Theorem invalid_startDate_is_Active (LocalTZA : Z -> bool -> Z) (now : Z)
    (customer : Customer) :
  parse (startDate customer) = None ->
  calculateSubscriptionDetails LocalTZA now customer = mkDetails None None Active
  /\ forall i l1 l2,
       monthRecord LocalTZA now (l1 ++ customer :: l2) i
       = monthRecord LocalTZA now (l1 ++ l2) i.
Proof.
  intros Hp. split.
  - unfold calculateSubscriptionDetails. rewrite Hp. reflexivity.
  - intros i l1 l2. unfold monthRecord.
    destruct (getFullYear LocalTZA (firstOfMonth LocalTZA now i)) as [year | ];
      trivial.
    destruct (getMonth LocalTZA (firstOfMonth LocalTZA now i)) as [month | ];
      trivial.
    cbv zeta. rewrite !fold_left_app. cbn [fold_left].
    destruct (fold_left _ l1 (0, 0)) as [a b]. rewrite Hp. reflexivity.
Qed.

Lemma invalid_startDate_is_Active_witness :
  historyData (fixedZone 0) Samples.june10 [Samples.ann; Samples.eve]
  = historyData (fixedZone 0) Samples.june10 [Samples.ann].
Proof.
  unfold historyData. apply map_ext. intros i.
  apply (proj2 (invalid_startDate_is_Active (fixedZone 0) Samples.june10
                  Samples.eve eq_refl) i [Samples.ann] []).
Defined.

Lemma MakeDay_months y k d (m : nat) :
  MakeDay y k d + 28 * Z.of_nat m <= MakeDay y (k + Z.of_nat m) d
    <= MakeDay y k d + 31 * Z.of_nat m.
Proof.
  induction m as [ | m IH ].
  - replace (k + Z.of_nat 0) with k by lia. lia.
  - replace (k + Z.of_nat (S m)) with (k + Z.of_nat m + 1) by lia.
    rewrite MakeDay_next_month.
    pose proof (DaysInMonth_range (y + (k + Z.of_nat m) / 12)
                  ((k + Z.of_nat m) mod 12)
                  ltac:(pose proof (Z.mod_pos_bound (k + Z.of_nat m) 12); lia)).
    lia.
Qed.

Lemma parse_in_range s t : parse s = Some t -> TimeClip t = Some t.
Proof.
  intros H. pose proof (parse_Day s t H) as B.
  destruct DayFromYear_at as (_ & E0 & E1 & _).
  rewrite E0, E1 in B. unfold TimeClip.
  destruct (Z.leb_spec (Z.abs t) maxTime); [ reflexivity | exfalso ].
  unfold Day, msPerDay, maxTime in *. Z.div_mod_to_equations. lia.
Qed.

(** A time value, from its day and its time within the day. *)
Lemma MakeDate_Day t : MakeDate (Day t) (TimeWithinDay t) = t.
Proof.
  unfold MakeDate, Day, TimeWithinDay, msPerDay. Z.div_mod_to_equations. lia.
Qed.

(** X3.  With zero months paid the expiry date is the start date, where
    the host reads the local time of the start instant back as that
    instant.  Of two customers with one start date the one with more
    months paid expires later on the local clock: the two expiry dates are
    the instants of two local times, of the same time of day, that lie
    between 28 and 31 days per extra month apart; where the host reads both
    local times with the same offset, as in every zone without daylight
    saving, the expiry dates themselves lie that far apart. *)
Theorem expiry_grows_with_months (LocalTZA : Z -> bool -> Z) (now : Z)
    (c1 c2 : Customer) :
  startDate c1 = startDate c2 ->
  (forall t, parse (startDate c1) = Some t -> monthsPaid c1 = 0 ->
     UTC LocalTZA (LocalTime LocalTZA t) = t ->
     expiryDate (calculateSubscriptionDetails LocalTZA now c1) = Some t) /\
  (forall e1 e2,
     monthsPaid c1 <= monthsPaid c2 ->
     expiryDate (calculateSubscriptionDetails LocalTZA now c1) = Some e1 ->
     expiryDate (calculateSubscriptionDetails LocalTZA now c2) = Some e2 ->
     exists s1 s2,
       e1 = UTC LocalTZA s1 /\ e2 = UTC LocalTZA s2 /\
       TimeWithinDay s1 = TimeWithinDay s2 /\
       s1 + 28 * msPerDay * (monthsPaid c2 - monthsPaid c1) <= s2
         <= s1 + 31 * msPerDay * (monthsPaid c2 - monthsPaid c1) /\
       (LocalTZA s1 false = LocalTZA s2 false ->
        e1 + 28 * msPerDay * (monthsPaid c2 - monthsPaid c1) <= e2
          <= e1 + 31 * msPerDay * (monthsPaid c2 - monthsPaid c1))).
Proof.
  intros Hs. unfold calculateSubscriptionDetails. cbn [expiryDate].
  rewrite <- Hs. split.
  - intros t Ht Hn0 Hback. rewrite Ht, Hn0. cbn [setMonth getMonth option_map].
    set (local := LocalTime LocalTZA t) in *.
    assert (MakeDay (YearFromTime local) (MonthFromTime local + 0)
              (DateFromTime local) = Day local) as ->
      by (rewrite Z.add_0_r; symmetry; apply Day_fields).
    rewrite MakeDate_Day, Hback.
    now apply (parse_in_range (startDate c1)).
  - intros e1 e2 Hle H1 H2.
    destruct (parse (startDate c1)) as [t | ]; [ | discriminate ].
    destruct (setMonth_addMonths LocalTZA t (monthsPaid c1))
      as (s1 & E1 & _ & T1 & D1).
    destruct (setMonth_addMonths LocalTZA t (monthsPaid c2))
      as (s2 & E2 & _ & T2 & D2).
    rewrite E1 in H1. rewrite E2 in H2.
    apply TimeClip_Some in H1, H2. destruct H1 as [-> _], H2 as [-> _].
    set (local := LocalTime LocalTZA t) in *.
    pose proof (MakeDay_months (YearFromTime local)
                  (MonthFromTime local + monthsPaid c1) (DateFromTime local)
                  (Z.to_nat (monthsPaid c2 - monthsPaid c1))) as B.
    rewrite Z2Nat.id in B by lia.
    replace (MonthFromTime local + monthsPaid c1
             + (monthsPaid c2 - monthsPaid c1))
      with (MonthFromTime local + monthsPaid c2) in B by lia.
    rewrite <- D1, <- D2 in B.
    assert (s1 + 28 * msPerDay * (monthsPaid c2 - monthsPaid c1) <= s2
              <= s1 + 31 * msPerDay * (monthsPaid c2 - monthsPaid c1)) as HB.
    { rewrite <- (MakeDate_Day s1), <- (MakeDate_Day s2), T1, T2.
      unfold MakeDate, msPerDay. nia. }
    exists s1, s2. split; [ reflexivity | ]. split; [ reflexivity | ].
    split; [ congruence | ]. split; [ exact HB | ].
    intros Ho. unfold UTC. rewrite Ho. lia.
Qed.

(** In the zone [Samples.london2024] nine months from 2024-01-15 end at
    2024-10-14T23:00Z (15 October, 00:00, in summer time) and ten months at
    2024-11-15T00:00Z: 31 days apart on the local clock, 31 days and an
    hour as instants. *)
Lemma expiry_grows_with_months_witness :
  expiryDate (calculateSubscriptionDetails Samples.london2024 0
                (Samples.customerWith "1" "2024-01-15" 9)) = Some 1728946800000 /\
  expiryDate (calculateSubscriptionDetails Samples.london2024 0
                (Samples.customerWith "1" "2024-01-15" 10)) = Some 1731628800000 /\
  exists s1 s2,
    1728946800000 = UTC Samples.london2024 s1 /\
    1731628800000 = UTC Samples.london2024 s2 /\
    TimeWithinDay s1 = TimeWithinDay s2 /\
    s1 + 28 * msPerDay * (10 - 9) <= s2 <= s1 + 31 * msPerDay * (10 - 9) /\
    (Samples.london2024 s1 false = Samples.london2024 s2 false ->
     1728946800000 + 28 * msPerDay * (10 - 9) <= 1731628800000
       <= 1728946800000 + 31 * msPerDay * (10 - 9)).
Proof.
  split; [ reflexivity | ]. split; [ reflexivity | ].
  apply (proj2 (expiry_grows_with_months Samples.london2024 0
                  (Samples.customerWith "1" "2024-01-15" 9)
                  (Samples.customerWith "1" "2024-01-15" 10) eq_refl)
           1728946800000 1731628800000); [ cbn; lia | reflexivity | reflexivity ].
Defined.

End ExpiryFacts.

(** ** More on the monthly history *)

Module WindowFacts.
Import Types JS App JSDate DateFacts StatusFacts HistoryFacts ExpiryFacts.

Local Open Scope list_scope.

(** The year of a clock reading between 1970 and 3000. *)
Lemma YearFromTime_now LocalTZA now :
  0 <= now <= 32503680000000 -> - msPerDay <= LocalTZA now true <= msPerDay ->
  1969 <= YearFromTime (LocalTime LocalTZA now) < 3001.
Proof.
  unfold LocalTime. generalize (LocalTZA now true). intros o Hn Hz.
  unfold YearFromTime. apply YearFromDay_bounds.
  assert (DayFromYear 1969 = -365 /\ DayFromYear 3001 = 376565) as [-> ->]
    by (split; reflexivity).
  unfold Day, msPerDay in *. Z.div_mod_to_equations; lia.
Qed.

(** The first day of the month [i] months before the current one: the
    host reads its local midnight back within the same month. *)
Lemma firstOfMonth_fields LocalTZA now i :
  0 <= now <= 32503680000000 ->
  (forall x b, - msPerDay <= LocalTZA x b <= msPerDay) ->
  (forall x, x <= LocalTime LocalTZA (UTC LocalTZA x) <= x + msPerDay) ->
  0 <= i <= 11 ->
  let y := YearFromTime (LocalTime LocalTZA now) in
  let m := MonthFromTime (LocalTime LocalTZA now) in
  exists d,
    firstOfMonth LocalTZA now i = Some d /\
    YearFromTime (LocalTime LocalTZA d) = y + (m - i) / 12 /\
    MonthFromTime (LocalTime LocalTZA d) = (m - i) mod 12.
Proof.
  intros Hn Hz Hback Hi y m.
  pose proof (YearFromTime_now LocalTZA now Hn (Hz now true)) as Hy. fold y in Hy.
  pose proof (fields_range (LocalTime LocalTZA now)) as [Hm _]. fold m in Hm.
  unfold firstOfMonth. cbn [getFullYear getMonth option_map]. fold y m.
  unfold newDateYMD.
  destruct (Z.leb_spec 0 y); destruct (Z.leb_spec y 99); try lia.
  cbn [andb].
  set (L := MakeDate (MakeDay y (m - i) 1) 0).
  assert (0 <= 0 < msPerDay) as Hmid by (unfold msPerDay; lia).
  assert (Day L = MakeDay y (m - i) 1) as HDL
    by (unfold L; now rewrite Day_MakeDate).
  assert (- 720000 <= Day L <= 39460000) as HB.
  { rewrite HDL. unfold MakeDay.
    set (k := m - i).
    assert (0 <= k mod 12 <= 11) as Hk
      by (pose proof (Z.mod_pos_bound k 12); lia).
    assert (-1 <= k / 12 <= 0) as Hq by (unfold k; Z.div_mod_to_equations; lia).
    pose proof (monthStart_nonneg (isLeapYear (y + k / 12)) (k mod 12) Hk).
    pose proof (monthStart_le_year (isLeapYear (y + k / 12)) (k mod 12) Hk).
    pose proof (DaysInMonth_range (y + k / 12) (k mod 12) Hk) as R1.
    unfold DaysInMonth in R1.
    pose proof (DayFromYear_mono 1968 (y + k / 12) ltac:(lia)).
    pose proof (DayFromYear_mono (y + k / 12) 3001 ltac:(lia)).
    assert (DayFromYear 1968 = -731 /\ DayFromYear 3001 = 376565) as [E1 E2]
      by (split; reflexivity).
    destruct (isLeapYear (y + k / 12)); lia. }
  exists (UTC LocalTZA L). split.
  - apply TimeClip_UTC_in_range; [ exact HB | apply Hz ].
  - (* the local time read back is on the first or the second of the month *)
    set (L' := LocalTime LocalTZA (UTC LocalTZA L)).
    pose proof (Hback L) as HL. fold L' in HL.
    assert (exists dd, 1 <= dd <= 2 /\ Day L' = MakeDay y (m - i) dd) as (dd & Hdd & HD').
    { assert (TimeWithinDay L = 0) as T0
        by (unfold L; now apply TimeWithinDay_MakeDate).
      assert (Day L' = Day L \/ Day L' = Day L + 1) as [E | E]
        by (unfold TimeWithinDay, Day, msPerDay in *;
            Z.div_mod_to_equations; lia).
      - exists 1. split; [ lia | congruence ].
      - exists 2. split; [ lia | ].
        rewrite E, HDL, (MakeDay_date y (m - i) 1), (MakeDay_date y (m - i) 2).
        lia. }
    assert (fieldsOf L' = (y + (m - i) / 12, (m - i) mod 12, dd)) as HF.
    { rewrite <- (MakeDate_Day L'), HD'. replace (m - i) with (m + - i) by lia.
      rewrite MakeDay_addMonths
        by (try apply TimeWithinDay_range; lia).
      unfold Spec.addMonths.
      pose proof (DaysInMonth_range (y + (m + - i) / 12) ((m + - i) mod 12)
                    ltac:(pose proof (Z.mod_pos_bound (m + - i) 12); lia)).
      destruct (Z.leb_spec dd (DaysInMonth (y + (m + - i) / 12) ((m + - i) mod 12)));
        [ reflexivity | lia ]. }
    unfold fieldsOf in HF. injection HF as HY HM _. auto.
Qed.

(** The two offsets of [Samples.london2024] and when they apply. *)
Lemma london2024_cases x :
  (if (1711846800000 <=? x) && (x <? 1729990800000)
   then 1711846800000 <= x < 1729990800000 /\ Samples.london2024 x true = 3600000
   else (x < 1711846800000 \/ 1729990800000 <= x) /\ Samples.london2024 x true = 0)
  /\
  (if (1711850400000 <=? x) && (x <? 1729994400000)
   then 1711850400000 <= x < 1729994400000 /\ Samples.london2024 x false = 3600000
   else (x < 1711850400000 \/ 1729994400000 <= x) /\ Samples.london2024 x false = 0).
Proof.
  unfold Samples.london2024. split.
  - destruct (Z.leb_spec 1711846800000 x); destruct (Z.ltb_spec x 1729990800000);
      cbn [andb]; split; trivial; lia.
  - destruct (Z.leb_spec 1711850400000 x); destruct (Z.ltb_spec x 1729994400000);
      cbn [andb]; split; trivial; lia.
Qed.

Ltac london x :=
  let H := fresh in
  pose proof (london2024_cases x) as H;
  destruct H as [? ?];
  repeat match goal with
    | H : (if ?c then _ else _) |- _ => destruct c; destruct H as [? ?]
    end.

Lemma london2024_offsets x b :
  - msPerDay <= Samples.london2024 x b <= msPerDay.
Proof. unfold msPerDay. london x. all: destruct b; lia. Qed.

(** [Samples.london2024] reads a local time back as itself, or an hour
    later when the change in March skips it. *)
Lemma london2024_reads_back x :
  x <= LocalTime Samples.london2024 (UTC Samples.london2024 x) <= x + msPerDay.
Proof.
  unfold LocalTime, UTC, msPerDay.
  london x. all: london (x - Samples.london2024 x false). all: lia.
Qed.

(** X4.  For a clock between 1970 and 3000 the twelve records of the
    history are labelled with the twelve calendar months that end with the
    current one, oldest first, as [YYYY-MM].  This holds in every zone
    whose offsets are at most a day and in which a local time is read back
    as itself or, when the zone skips it, as a later one within a day; the
    zones with a fixed offset are among them. *)
Theorem history_is_the_last_twelve_months (LocalTZA : Z -> bool -> Z)
    (now : Z) (customers : list Customer) :
  0 <= now <= 32503680000000 ->
  (forall x b, - msPerDay <= LocalTZA x b <= msPerDay) ->
  (forall x, x <= LocalTime LocalTZA (UTC LocalTZA x) <= x + msPerDay) ->
  let y := YearFromTime (LocalTime LocalTZA now) in
  let m := MonthFromTime (LocalTime LocalTZA now) in
  map month (historyData LocalTZA now customers)
  = map (fun i => toString (y + (m - i) / 12) ++ "-"
                  ++ padStart2 (toString ((m - i) mod 12 + 1)))%string
        [11; 10; 9; 8; 7; 6; 5; 4; 3; 2; 1; 0]
  /\ month (monthRecord LocalTZA now customers 0)
     = (toString y ++ "-" ++ padStart2 (toString (m + 1)))%string.
Proof.
  intros Hn Hz Hback y m.
  assert (forall i, 0 <= i <= 11 ->
            month (monthRecord LocalTZA now customers i)
            = (toString (y + (m - i) / 12) ++ "-"
               ++ padStart2 (toString ((m - i) mod 12 + 1)))%string) as H.
  { intros i Hi.
    destruct (firstOfMonth_fields LocalTZA now i Hn Hz Hback Hi)
      as (d & Hd & HY & HM).
    fold y m in HY, HM.
    rewrite (monthRecord_overlap LocalTZA now customers i
               (y + (m - i) / 12) ((m - i) mod 12)).
    - reflexivity.
    - rewrite Hd. cbn [getFullYear option_map]. now rewrite HY.
    - rewrite Hd. cbn [getMonth option_map]. now rewrite HM. }
  split.
  - unfold historyData. rewrite map_map. cbn [map].
    rewrite !H by lia. reflexivity.
  - rewrite H by lia.
    pose proof (fields_range (LocalTime LocalTZA now)) as [Hm _]. fold m in Hm.
    rewrite Z.sub_0_r, Z.div_small, Z.mod_small, Z.add_0_r by lia.
    reflexivity.
Qed.

(** At 2024-03-31T23:30Z the clock of [Samples.london2024] shows 1 April,
    00:30: the current month is April. *)
Lemma history_is_the_last_twelve_months_witness :
  month (monthRecord Samples.london2024 1711927800000 [Samples.ann] 0)
  = "2024-04".
Proof.
  rewrite (proj2 (history_is_the_last_twelve_months Samples.london2024
                    1711927800000 [Samples.ann] ltac:(lia)
                    london2024_offsets london2024_reads_back)).
  reflexivity.
Defined.

End WindowFacts.

Module IncomeFacts.
Import Types JS App JSDate DateFacts StatusFacts HistoryFacts.

Local Open Scope list_scope.

Lemma sum_price_bounds (l : list Customer) :
  SHARE_PRICE * Z.of_nat (List.length l) <= Spec.sum (map Spec.price l)
    <= PRIVATE_PRICE * Z.of_nat (List.length l).
Proof.
  unfold Spec.sum. induction l as [ | c l IH ]; [ cbn; lia | ].
  cbn [map fold_right List.length]. unfold Spec.price at 1 3.
  unfold SHARE_PRICE, PRIVATE_PRICE in *. destruct (accountType c); lia.
Qed.

(** The record of a month in both cases of its computation. *)
Lemma monthRecord_cases LocalTZA now customers i :
  (exists year month,
     activeUsers (monthRecord LocalTZA now customers i)
       = Z.of_nat (List.length
                     (filter (overlapsMonth LocalTZA year month) customers))
     /\ totalIncome (monthRecord LocalTZA now customers i)
       = Spec.sum (map Spec.price
                     (filter (overlapsMonth LocalTZA year month) customers)))
  \/ monthRecord LocalTZA now customers i = mkMonthlyRecord "NaN-NaN" 0 0.
Proof.
  destruct (getFullYear LocalTZA (firstOfMonth LocalTZA now i)) as [year | ] eqn:Ey;
    [ destruct (getMonth LocalTZA (firstOfMonth LocalTZA now i)) as [month | ] eqn:Em | ].
  - left. exists year, month.
    rewrite (monthRecord_overlap LocalTZA now customers i year month Ey Em).
    split; reflexivity.
  - right. unfold monthRecord. now rewrite Ey, Em.
  - right. unfold monthRecord. now rewrite Ey.
Qed.

(** X5.  In every record of the history the number of active users is at
    most the number of customers, and the income lies between the share
    price and the private price times that number. *)
Theorem history_income_bounds (LocalTZA : Z -> bool -> Z) (now : Z)
    (customers : list Customer) (i : Z) :
  let r := monthRecord LocalTZA now customers i in
  0 <= activeUsers r <= Z.of_nat (List.length customers) /\
  SHARE_PRICE * activeUsers r <= totalIncome r <= PRIVATE_PRICE * activeUsers r.
Proof.
  cbv zeta.
  destruct (monthRecord_cases LocalTZA now customers i)
    as [(year & month & -> & ->) | ->].
  - pose proof (filter_length_le (overlapsMonth LocalTZA year month)
                  customers).
    pose proof (sum_price_bounds
                  (filter (overlapsMonth LocalTZA year month) customers)).
    lia.
  - cbn. unfold SHARE_PRICE, PRIVATE_PRICE. lia.
Qed.

Lemma fold_left_Forall2 {A B C} (R : B -> C -> Prop)
    (f : A -> B -> A) (g : A -> C -> A) l l' acc :
  (forall acc b c, R b c -> f acc b = g acc c) ->
  Forall2 R l l' -> fold_left f l acc = fold_left g l' acc.
Proof.
  intros H F. revert acc. induction F as [ | b c l l' Hbc F IH ]; intros acc.
  - reflexivity.
  - cbn [fold_left]. rewrite (H acc b c Hbc). apply IH.
Qed.

(** X6.  The history depends on a customer only through the start date,
    the months paid and the account type: the amount recorded for a
    customer, like every other field, has no effect on it. *)
Theorem history_ignores_amount (LocalTZA : Z -> bool -> Z) (now : Z)
    (l l' : list Customer) :
  Forall2 (fun a b : Customer =>
             startDate a = startDate b /\ monthsPaid a = monthsPaid b /\
             accountType a = accountType b) l l' ->
  historyData LocalTZA now l = historyData LocalTZA now l'.
Proof.
  intros F. unfold historyData. apply map_ext. intros i. unfold monthRecord.
  destruct (getFullYear LocalTZA (firstOfMonth LocalTZA now i)) as [year | ];
    trivial.
  destruct (getMonth LocalTZA (firstOfMonth LocalTZA now i)) as [month | ];
    trivial.
  cbv zeta.
  erewrite fold_left_Forall2; [ reflexivity | | exact F ].
  intros [a t] b c (Hs & Hm & Ha). cbv beta iota. now rewrite Hs, Hm, Ha.
Qed.

Lemma history_ignores_amount_witness :
  historyData (fixedZone 0) Samples.june10
    [mkCustomer "7" (mkFields "Zed" "z" "2024-01-15" 2 1 "n" "e" Share)]
  = historyData (fixedZone 0) Samples.june10 [Samples.ann].
Proof.
  apply history_ignores_amount. repeat constructor.
Defined.

End IncomeFacts.

(** ** More on create, update, delete *)

Module CrudCompose.
Import Types JS App CrudFacts.

Local Open Scope list_scope.

Lemma filter_filter_same {A} (f : A -> bool) l : filter f (filter f l) = filter f l.
Proof.
  induction l as [ | x l IH ]; cbn; trivial.
  destruct (f x) eqn:E; cbn; [ rewrite E; f_equal | ]; exact IH.
Qed.

Lemma filter_comm {A} (f g : A -> bool) l :
  filter f (filter g l) = filter g (filter f l).
Proof.
  induction l as [ | x l IH ]; cbn; trivial.
  destruct (f x) eqn:Ef, (g x) eqn:Eg; cbn; rewrite ?Ef, ?Eg, IH; reflexivity.
Qed.

(** X7.  Confirmed deletes compose: deleting an id twice is deleting it
    once, deletes of two ids commute, after a delete no record carries the
    id, and deleting the id of a record just created, when that id was not
    in the list before, gives the list back. *)
Theorem delete_composes (now : Z) (id1 id2 : string) (data : CustomerFields)
    (st : AppState) :
  handleDeleteCustomer true id1 (handleDeleteCustomer true id1 st)
    = handleDeleteCustomer true id1 st /\
  handleDeleteCustomer true id1 (handleDeleteCustomer true id2 st)
    = handleDeleteCustomer true id2 (handleDeleteCustomer true id1 st) /\
  ~ In id1 (map id (customers (handleDeleteCustomer true id1 st))) /\
  (~ In (toString now) (map id (customers st)) ->
   customers (handleDeleteCustomer true (toString now)
                (handleSaveCustomer now (WithoutId data) st))
   = customers st).
Proof.
  destruct st as [cs em fs fe sc m1 m2 m3 al].
  unfold handleDeleteCustomer, handleSaveCustomer, setIsCustomerModalOpen,
    setCustomers. cbn [customers netflixEmails filterStatus filterEmail
                       sortConfig isCustomerModalOpen isEmailModalOpen
                       isImportModalOpen alerts].
  split; [ | split; [ | split ] ].
  - f_equal. apply filter_filter_same.
  - f_equal. apply filter_comm.
  - intros H. apply in_map_iff in H. destruct H as (c & Hc & Hin).
    apply filter_In in Hin. destruct Hin as [_ Hin].
    rewrite Hc, String.eqb_refl in Hin. discriminate.
  - intros Hfresh. rewrite filter_app. cbn [filter id].
    rewrite String.eqb_refl. cbn [negb]. rewrite app_nil_r.
    now apply filter_other_id.
Qed.

Lemma delete_composes_witness :
  customers (handleDeleteCustomer true (toString Samples.march9)
               (handleSaveCustomer Samples.march9 (WithoutId Samples.bob)
                  (Samples.withCustomers [Samples.ann])))
  = [Samples.ann].
Proof.
  apply (proj2 (proj2 (proj2 (delete_composes Samples.march9 "" ""
                                Samples.bob
                                (Samples.withCustomers [Samples.ann]))))).
  cbn. intros [H | []]. discriminate.
Defined.

Lemma map_replace_ids (data : Customer) (l : list Customer) :
  map id (map (fun c : Customer => if (id c =? id data)%string then data else c) l)
  = map id l.
Proof.
  induction l as [ | c l IH ]; cbn [map]; trivial.
  rewrite IH. f_equal.
  destruct (String.eqb_spec (id c) (id data)); congruence.
Qed.

Lemma map_replace_absent (data : Customer) (l : list Customer) :
  ~ In (id data) (map id l) ->
  map (fun c : Customer => if (id c =? id data)%string then data else c) l = l.
Proof.
  induction l as [ | c l IH ]; intros H; cbn [map]; trivial.
  cbn [map In] in H.
  destruct (String.eqb_spec (id c) (id data)); [ tauto | ].
  f_equal. apply IH. tauto.
Qed.

(** X8.  Saving a record that carries an id leaves the ids of the list as
    they are, makes every record with that id equal to the saved data, is
    idempotent, and changes nothing when the saved record is already in a
    list of distinct ids. *)
Theorem update_keeps_ids (now : Z) (data : Customer) (st : AppState) :
  let st' := handleSaveCustomer now (WithId data) st in
  map id (customers st') = map id (customers st) /\
  (forall c, In c (customers st') -> id c = id data -> c = data) /\
  handleSaveCustomer now (WithId data) st' = st' /\
  (In data (customers st) -> NoDup (map id (customers st)) ->
   customers st' = customers st).
Proof.
  destruct st as [cs em fs fe sc m1 m2 m3 al]. cbv zeta.
  unfold handleSaveCustomer, setIsCustomerModalOpen, setCustomers.
  cbn [customers netflixEmails filterStatus filterEmail sortConfig
       isCustomerModalOpen isEmailModalOpen isImportModalOpen alerts].
  split; [ apply map_replace_ids | ]. split; [ | split ].
  - intros c Hin Hid. apply in_map_iff in Hin.
    destruct Hin as (c0 & Hc0 & _).
    destruct (String.eqb_spec (id c0) (id data)); congruence.
  - f_equal. rewrite map_map. apply map_ext. intros c.
    destruct (String.eqb_spec (id c) (id data)) as [E | N].
    + now rewrite String.eqb_refl.
    + destruct (String.eqb_spec (id c) (id data)); [ contradiction | trivial ].
  - intros Hin ND. induction cs as [ | c l IH ]; cbn [map]; trivial.
    cbn [map] in ND. inversion ND as [ | ? ? Hnotin ND' ]; subst.
    destruct (String.eqb_spec (id c) (id data)) as [E | N].
    + destruct Hin as [-> | Hin].
      * f_equal. now apply map_replace_absent.
      * exfalso. apply Hnotin. rewrite E. now apply in_map.
    + destruct Hin as [-> | Hin]; [ contradiction | ].
      f_equal. now apply IH.
Qed.

Lemma update_keeps_ids_witness :
  customers (handleSaveCustomer 0 (WithId Samples.bob)
               (Samples.withCustomers [Samples.ann; Samples.bob]))
  = [Samples.ann; Samples.bob].
Proof.
  apply (proj2 (proj2 (proj2 (update_keeps_ids 0 Samples.bob
           (Samples.withCustomers [Samples.ann; Samples.bob]))))).
  - cbn. auto.
  - cbn. constructor; [ | constructor; [ | constructor ] ]; cbn.
    + intros [H | []]; discriminate.
    + tauto.
Defined.

End CrudCompose.

(** ** More on the view *)

Module ViewOrder.
Import Types JS App ViewFacts.

Local Open Scope list_scope.

(** X9.  A click on a column header only reorders: the view after it is a
    permutation of the view before it, the customers, the emails and the
    filters are unchanged, the sort key is the clicked one, and from then
    on two more clicks on the same key restore the state. *)
Theorem handleSort_keeps_rows (k : string) (st : AppState)
    (processed : list ProcessedCustomer) :
  let st' := handleSort k st in
  Permutation
    (displayCustomers processed (filterStatus st') (filterEmail st')
                      (sortConfig st'))
    (displayCustomers processed (filterStatus st) (filterEmail st)
                      (sortConfig st)) /\
  key (sortConfig st') = k /\
  (customers st', netflixEmails st', filterStatus st', filterEmail st')
    = (customers st, netflixEmails st, filterStatus st, filterEmail st) /\
  handleSort k (handleSort k st') = st'.
Proof.
  cbv zeta. split; [ | split; [ | split ] ].
  - unfold handleSort. cbn [filterStatus filterEmail sortConfig setSortConfig].
    rewrite (proj1 (displayCustomers_filter processed _ _ _)).
    now rewrite (proj1 (displayCustomers_filter processed _ _ (sortConfig st))).
  - reflexivity.
  - reflexivity.
  - destruct st as [cs em fs fe [k0 d0] m1 m2 m3 al].
    unfold handleSort, setSortConfig.
    cbn [customers netflixEmails filterStatus filterEmail sortConfig
         isCustomerModalOpen isEmailModalOpen isImportModalOpen alerts
         key direction].
    rewrite String.eqb_refl.
    destruct (k0 =? k)%string, d0; reflexivity.
Qed.

Lemma lt_asym a b : lt a b = true -> lt b a = false.
Proof.
  intros H. destruct (lt b a) eqn:E; trivial.
  pose proof (lt_trans a b a H E) as C. rewrite lt_irrefl in C. discriminate.
Qed.

(** "Not greater than" is transitive on the values of one field that take
    part in the order. *)
Lemma not_gt_trans a b c :
  sameKind a b -> ordered a = true -> ordered b = true ->
  lt b a = false -> lt c b = false -> lt c a = false.
Proof.
  intros K Oa Ob H1 H2. destruct (lt c a) eqn:E; trivial.
  assert (a <> b) as N by (intros ->; congruence).
  destruct (lt_total a b K Oa Ob N) as [L | L]; [ | congruence ].
  pose proof (lt_trans c a b E L). congruence.
Qed.

Lemma StronglySorted_impl {A} (R Q : A -> A -> Prop) l :
  (forall a b, R a b -> Q a b) -> StronglySorted R l -> StronglySorted Q l.
Proof.
  intros H. induction 1 as [ | a l S IH F ]; constructor; trivial.
  eapply Forall_impl; [ | exact F ]. intros b. apply H.
Qed.

Lemma Forall_ForallOrdPairs {A} (P : A -> Prop) (Q : A -> A -> Prop) l :
  (forall a b, P a -> P b -> Q a b) -> Forall P l -> ForallOrdPairs Q l.
Proof.
  intros H. induction 1 as [ | a l Ha F IH ]; constructor; trivial.
  eapply Forall_impl; [ | exact F ]. intros b. now apply H.
Qed.

(** The view sorted on values that all take part in the order. *)
Lemma sort_with_ties k d l :
  Forall (fun c => ordered (getField k c) = true) l ->
  StronglySorted
    (fun a b : ProcessedCustomer =>
       match d with
       | ascending => lt (getField k b) (getField k a) = false
       | descending => lt (getField k a) (getField k b) = false
       end)
    (sort (compareBy (mkSortConfig k d)) l).
Proof.
  intros Ho.
  set (O := fun c : ProcessedCustomer => ordered (getField k c) = true) in *.
  destruct d.
  - apply (StronglySorted_impl
             (fun a b => O a /\ O b /\ lt (getField k b) (getField k a) = false));
      [ tauto | ].
    apply sort_sorted.
    + intros a b c (Oa & Ob & H1) (_ & Oc & H2). repeat split; trivial.
      eapply (not_gt_trans _ (getField k b)); eauto using getField_sameKind.
    + apply (Forall_ForallOrdPairs O); trivial. intros a b Oa Ob.
      unfold agrees, compareBy, gt. cbn [key direction].
      destruct (lt (getField k b) (getField k a)) eqn:E1.
      * split; [ lia | ]. intros _. repeat split; trivial. now apply lt_asym.
      * split; [ tauto | ].
        destruct (lt (getField k a) (getField k b)); lia.
  - apply (StronglySorted_impl
             (fun a b => O a /\ O b /\ lt (getField k a) (getField k b) = false));
      [ tauto | ].
    apply sort_sorted.
    + intros a b c (Oa & Ob & H1) (_ & Oc & H2). repeat split; trivial.
      eapply (not_gt_trans _ (getField k b)); eauto using getField_sameKind.
    + apply (Forall_ForallOrdPairs O); trivial. intros a b Oa Ob.
      unfold agrees, compareBy, gt. cbn [key direction].
      destruct (lt (getField k b) (getField k a)) eqn:E1.
      * split; [ | lia ]. intros _. repeat split; trivial. now apply lt_asym.
      * destruct (lt (getField k a) (getField k b)) eqn:E2.
        -- split; [ lia | ]. intros _. tauto.
        -- split; [ tauto | lia ].
Qed.

(** X10.  When no value of the sort key is NaN, an Invalid Date or
    missing, the ascending view never has a greater value in front of a
    smaller one and the descending view never a smaller one in front of a
    greater one; equal values are allowed. *)
Theorem sorted_view_is_monotone (processed : list ProcessedCustomer)
    (fs : StatusFilter) (fe : string) (k : string) :
  k <> "" ->
  Forall (fun c => ordered (getField k c) = true) processed ->
  StronglySorted
    (fun a b : ProcessedCustomer => lt (getField k b) (getField k a) = false)
    (displayCustomers processed fs fe (mkSortConfig k ascending)) /\
  StronglySorted
    (fun a b : ProcessedCustomer => lt (getField k a) (getField k b) = false)
    (displayCustomers processed fs fe (mkSortConfig k descending)).
Proof.
  intros Hk Ho. apply String.eqb_neq in Hk.
  rewrite !displayCustomers_sort by exact Hk.
  assert (Forall (fun c => ordered (getField k c) = true)
            (filter (fun c => Spec.passesStatus fs c && Spec.passesEmail fe c)
                    processed)) as Hf.
  { rewrite Forall_forall in *. intros c Hc. apply Ho.
    now apply filter_In in Hc. }
  split.
  - exact (sort_with_ties k ascending _ Hf).
  - exact (sort_with_ties k descending _ Hf).
Qed.

Lemma sorted_view_is_monotone_witness :
  StronglySorted
    (fun a b : ProcessedCustomer =>
       lt (getField "monthsPaid" b) (getField "monthsPaid" a) = false)
    (displayCustomers
       (Samples.processedOn9March [Samples.ann; Samples.bob; Samples.ann])
       AllStatuses "All" (mkSortConfig "monthsPaid" ascending)).
Proof.
  apply (sorted_view_is_monotone
           (Samples.processedOn9March [Samples.ann; Samples.bob; Samples.ann])
           AllStatuses "All" "monthsPaid").
  - discriminate.
  - repeat constructor.
Defined.

(** A list the comparator already accepts in its order is returned as it is. *)
Lemma sort_already_ordered {A} (comparefn : A -> A -> Z) l :
  ForallOrdPairs (fun x y => comparefn x y <= 0) l -> sort comparefn l = l.
Proof.
  induction 1 as [ | x l Hx Hl IH ]; cbn [sort]; trivial.
  rewrite IH. destruct l as [ | y l' ]; cbn [insert]; trivial.
  inversion Hx; subst.
  destruct (Z.leb_spec (comparefn x y) 0); [ reflexivity | lia ].
Qed.

(** X11.  When no value of the sort key takes part in the order (a key
    the records do not have, or a date that is invalid in every record),
    the view is the filtered list in its stored order, in either
    direction. *)
Theorem sort_without_order_keeps_stored_order
    (processed : list ProcessedCustomer) (fs : StatusFilter) (fe : string)
    (sc : SortConfig) :
  Forall (fun c => ordered (getField (key sc) c) = false) processed ->
  displayCustomers processed fs fe sc
  = filter (fun c => Spec.passesStatus fs c && Spec.passesEmail fe c) processed.
Proof.
  intros Ho.
  destruct (key sc =? "")%string eqn:Hk.
  - now apply displayCustomers_filter.
  - rewrite displayCustomers_sort by exact Hk.
    apply sort_already_ordered.
    apply (Forall_ForallOrdPairs
             (fun c => ordered (getField (key sc) c) = false)).
    + intros a b Ha Hb. unfold compareBy, gt.
      assert (forall u v, ordered u = false -> lt u v = false) as Hl
        by (intros [s | [n | ] | [t | ] | ] v; cbn; congruence).
      rewrite (Hl _ _ Hb), (Hl _ _ Ha). destruct (direction sc); lia.
    + rewrite Forall_forall in *. intros c Hc. apply Ho.
      now apply filter_In in Hc.
Qed.

Lemma sort_without_order_keeps_stored_order_witness :
  displayCustomers (Samples.processedOn9March [Samples.bob; Samples.ann])
    AllStatuses "All" (mkSortConfig "phone" descending)
  = Samples.processedOn9March [Samples.bob; Samples.ann].
Proof.
  rewrite (sort_without_order_keeps_stored_order
             (Samples.processedOn9March [Samples.bob; Samples.ann])
             AllStatuses "All" (mkSortConfig "phone" descending)).
  - reflexivity.
  - repeat constructor.
Defined.

End ViewOrder.

(** ** More on loading *)

Module MigrationFacts.
Import Types JS App Persistence PersistenceFacts.

Local Open Scope list_scope.

(** The keys the migration writes or removes. *)
Lemma getProp_migrated_other props p n ct a k :
  k <> "profileName" -> k <> "note" -> k <> "accountType" -> k <> "contact" ->
  getProp k (migrated props p n ct a) = getProp k props.
Proof.
  intros N1 N2 N3 N4. unfold migrated.
  rewrite getProp_deleteProp_other, !getProp_setProp_other by congruence.
  reflexivity.
Qed.

Lemma truthy_orDefault a d :
  truthy (Some (orDefault a d)) = true \/ orDefault a d = d.
Proof.
  destruct (truthy a) eqn:T.
  - destruct a as [v | ]; [ | discriminate ].
    rewrite (orDefault_truthy v d T). auto.
  - rewrite (orDefault_falsy a d T). auto.
Qed.

(** X12.  Every record the load migration returns is an object without a
    [contact] property whose [profileName], [note] and [accountType] are
    present, each either a truthy value or its default; all other
    properties are those of the stored record; and a legacy [contact] is
    moved into [note] when the stored record has no note. *)
Theorem migrate_establishes_schema (o o' : JSON) :
  migrate o = Some o' ->
  exists props,
    o' = JObject props /\
    getProp "contact" props = None /\
    (exists v, getProp "profileName" props = Some v /\
               (truthy (Some v) = true \/ v = JString "")) /\
    (exists v, getProp "note" props = Some v /\
               (truthy (Some v) = true \/ v = JString "")) /\
    (exists v, getProp "accountType" props = Some v /\
               (truthy (Some v) = true \/ v = JString "Share")) /\
    (forall k, k <> "profileName" -> k <> "note" -> k <> "accountType" ->
               k <> "contact" -> getProp k props = getProp k (spread o)) /\
    (forall old v,
        o = JObject old -> truthy (getProp "note" old) = false ->
        getProp "contact" old = Some v -> truthy (Some v) = true ->
        getProp "note" props = Some v).
Proof.
  unfold migrate.
  destruct (readProp o "profileName") as [p | ] eqn:Ep; [ | discriminate ].
  destruct (readProp o "note") as [n | ] eqn:En; [ | discriminate ].
  destruct (readProp o "contact") as [ct | ] eqn:Ec; [ | discriminate ].
  destruct (readProp o "accountType") as [a | ] eqn:Ea; [ | discriminate ].
  intros [= <-]. fold (migrated (spread o) p n ct a).
  exists (migrated (spread o) p n ct a).
  assert (getProp "note" (migrated (spread o) p n ct a)
          = Some (orDefault (or n ct) (JString ""))) as Hn.
  { unfold migrated.
    rewrite getProp_deleteProp_other, getProp_setProp_other by discriminate.
    apply getProp_setProp_same. }
  split; [ reflexivity | ]. split; [ apply getProp_deleteProp_same | ].
  split; [ | split; [ | split; [ | split ] ] ].
  - eexists. split; [ | apply truthy_orDefault ].
    unfold migrated.
    rewrite getProp_deleteProp_other, !getProp_setProp_other by discriminate.
    apply getProp_setProp_same.
  - eexists. split; [ exact Hn | apply truthy_orDefault ].
  - eexists. split; [ | apply (truthy_orDefault a (JString "Share")) ].
    unfold migrated. rewrite getProp_deleteProp_other by discriminate.
    apply getProp_setProp_same.
  - intros k. apply getProp_migrated_other.
  - intros old v -> Tn Hc Tv. rewrite Hn. f_equal.
    cbn [readProp] in En, Ec. injection En as <-. injection Ec as <-.
    unfold or at 1. rewrite Tn, Hc. now apply orDefault_truthy.
Qed.

Lemma migrate_establishes_schema_witness :
  migrate (JObject [("id", JString "7"); ("contact", JString "tel")])
  = Some (JObject [("id", JString "7"); ("profileName", JString "");
                   ("note", JString "tel"); ("accountType", JString "Share")])
  /\ exists props,
       JObject [("id", JString "7"); ("profileName", JString "");
                ("note", JString "tel"); ("accountType", JString "Share")]
         = JObject props /\ getProp "contact" props = None.
Proof.
  split; [ reflexivity | ].
  destruct (migrate_establishes_schema
              (JObject [("id", JString "7"); ("contact", JString "tel")])
              _ eq_refl) as (props & H1 & H2 & _).
  exists props. split; assumption.
Defined.

Lemma mapThrowing_Some {A B} (f : A -> option B) l :
  (forall x, In x l -> f x <> None) ->
  exists l', mapThrowing f l = Some l' /\ Forall2 (fun x y => f x = Some y) l l'.
Proof.
  induction l as [ | x l IH ]; intros H.
  - exists []. split; [ reflexivity | constructor ].
  - destruct (f x) as [y | ] eqn:E; [ | exfalso; apply (H x); [ now left | exact E ] ].
    destruct IH as (l' & Hl & F); [ intros z Hz; apply H; now right | ].
    exists (y :: l'). cbn [mapThrowing]. rewrite E, Hl.
    split; [ reflexivity | now constructor ].
Qed.

Lemma mapThrowing_None {A B} (f : A -> option B) l x :
  In x l -> f x = None -> mapThrowing f l = None.
Proof.
  induction l as [ | y l IH ]; intros Hin E; [ destruct Hin | ].
  cbn [mapThrowing]. destruct Hin as [-> | Hin].
  - now rewrite E.
  - destruct (f y); trivial. now rewrite (IH Hin E).
Qed.

Lemma migrate_None o : migrate o = None <-> o = JNull.
Proof.
  split; [ | now intros -> ].
  destruct o; trivial; discriminate.
Qed.

(** X13.  Loading a stored text that parses is all or nothing: an array
    with a [null] element, or a value that is not an array, gives the empty
    list and a logged TypeError; an array without [null] gives one migrated
    record per element, in order, and no log entry. *)
Theorem load_is_all_or_nothing (JSON_parse : string -> option JSON)
    (storage : Storage) (text : string) (v : JSON) :
  getItem "customers" storage = Some text -> text <> "" ->
  JSON_parse text = Some v ->
  let failed :=
    ([], [mkLog "Failed to parse customers from localStorage" TypeError]) in
  (forall l, v = JArray l -> In JNull l ->
             initCustomers JSON_parse storage = failed) /\
  (forall l, v = JArray l -> ~ In JNull l ->
     exists l', initCustomers JSON_parse storage = (l', []) /\
                Forall2 (fun o o' => migrate o = Some o') l l') /\
  ((forall l, v <> JArray l) -> initCustomers JSON_parse storage = failed).
Proof.
  intros Hg Ht Hp. cbv zeta. unfold initCustomers. rewrite Hg.
  apply String.eqb_neq in Ht. rewrite Ht. cbn [negb]. rewrite Hp.
  split; [ | split ].
  - intros l -> Hin. now rewrite (mapThrowing_None migrate l JNull Hin).
  - intros l -> Hnot.
    destruct (mapThrowing_Some migrate l) as (l' & -> & F).
    + intros x Hx E. apply migrate_None in E. now subst.
    + now exists l'.
  - intros Hna. destruct v; try reflexivity. now destruct (Hna l).
Qed.

Lemma load_is_all_or_nothing_witness :
  initCustomers RefCodec.parse (Samples.storageWith "[{},null]" "[]")
  = ([], [mkLog "Failed to parse customers from localStorage" TypeError]).
Proof.
  apply (proj1 (load_is_all_or_nothing RefCodec.parse
                  (Samples.storageWith "[{},null]" "[]") "[{},null]"
                  (JArray [JObject []; JNull]) eq_refl ltac:(discriminate)
                  eq_refl) [JObject []; JNull] eq_refl).
  cbn. auto.
Defined.

End MigrationFacts.

(** ** The theme, and imports *)

Module ThemeFacts.
Import Persistence PersistenceFacts ThemeState.

Local Open Scope list_scope.

(** X14.  After the theme effect has run, the initializer returns the same
    theme whatever the system preference, the root element carries the
    class [dark] exactly for the dark theme, and no other key of the store
    is touched; toggling switches the theme and toggling twice restores
    it; a stored value other than [dark] and [light] is ignored in favour
    of the system preference. *)
Theorem theme_survives_reload (theme : Theme) (root : list string)
    (storage : Storage) (prefersDark : bool) :
  let root' := fst (themeEffect theme root storage) in
  let storage' := snd (themeEffect theme root storage) in
  initTheme storage' prefersDark = theme /\
  (In "dark" root' <-> theme = dark) /\
  (forall k, k <> "theme" -> getItem k storage' = getItem k storage) /\
  handleToggleTheme (handleToggleTheme theme) = theme /\
  handleToggleTheme theme <> theme /\
  (forall s, getItem "theme" storage = Some s -> s <> "dark" -> s <> "light" ->
             initTheme storage prefersDark = if prefersDark then dark else light).
Proof.
  cbv zeta. unfold themeEffect. cbn [fst snd].
  split; [ | split; [ | split; [ | split; [ | split ] ] ] ].
  - unfold initTheme. rewrite getItem_setItem_same.
    destruct theme; reflexivity.
  - destruct theme.
    + unfold classListRemove. rewrite filter_In. split; [ | discriminate ].
      intros [_ H]. now rewrite String.eqb_refl in H.
    + split; [ reflexivity | intros _ ]. unfold classListAdd.
      destruct (existsb (String.eqb "dark") root) eqn:E.
      * apply existsb_exists in E. destruct E as (x & Hx & Ex).
        apply String.eqb_eq in Ex. now subst.
      * apply in_or_app. right. now left.
  - intros k N. now apply getItem_setItem_other.
  - destruct theme; reflexivity.
  - destruct theme; discriminate.
  - intros s Hs N1 N2. unfold initTheme. rewrite Hs.
    apply String.eqb_neq in N1, N2. now rewrite N1, N2.
Qed.

Lemma theme_survives_reload_witness :
  initTheme (Persistence.setItem "theme" "blue" (fun _ => None)) true = dark.
Proof.
  apply (proj2 (proj2 (proj2 (proj2 (proj2
           (theme_survives_reload light []
              (Persistence.setItem "theme" "blue" (fun _ => None)) true)))))
           "blue" eq_refl); discriminate.
Defined.

End ThemeFacts.

Module ImportFacts.
Import Types JS App CrudFacts.

Local Open Scope list_scope.

(** [v || d] returns a provided value as it is. *)
Lemma orString_Some s : orString (Some s) "" = s.
Proof. unfold orString. destruct (String.eqb_spec s ""); congruence. Qed.

Lemma orNumber_Some n : orNumber (Some n) 0 = n.
Proof. unfold orNumber. destruct (Z.eqb_spec n 0); congruence. Qed.

(** X15.  An import adds exactly one record per row, reports that number
    in its alert and closes the dialog; a value a row provides for an
    optional field is kept as it is and a missing one becomes the empty
    string, 0 or Share; an empty import leaves the list unchanged. *)
Theorem import_counts_and_defaults (clock : nat -> Z) (rows : list ImportRow)
    (st : AppState) :
  let st' := handleImportCustomers clock rows st in
  List.length (customers st')
    = (List.length (customers st) + List.length rows)%nat /\
  alerts st'
    = alerts st ++ [(toString (Z.of_nat (List.length rows))
                     ++ " customer(s) have been imported successfully.")%string] /\
  isImportModalOpen st' = false /\
  (forall i row,
     nth_error rows i = Some row ->
     exists c,
       nth_error (customers st') (List.length (customers st) + i) = Some c /\
       profileName c = match row_profileName row with Some s => s | None => "" end /\
       amount c = match row_amount row with Some n => n | None => 0 end /\
       note c = match row_note row with Some s => s | None => "" end /\
       netflixEmail c
         = match row_netflixEmail row with Some s => s | None => "" end /\
       accountType c
         = match row_accountType row with Some a => a | None => Share end) /\
  (rows = [] -> customers st' = customers st).
Proof.
  cbv zeta. unfold handleImportCustomers.
  cbn [alert setIsImportModalOpen setCustomers customers alerts
       isImportModalOpen].
  split; [ | split; [ | split; [ | split ] ] ].
  - now rewrite length_app, length_mapIndexed.
  - now rewrite length_mapIndexed.
  - reflexivity.
  - intros i row H.
    rewrite nth_error_app2 by lia.
    replace (List.length (customers st) + i - List.length (customers st))%nat
      with i by lia.
    rewrite nth_error_mapIndexed, H. cbn [option_map].
    eexists. split; [ reflexivity | ].
    cbn [fields profileName amount note netflixEmail accountType].
    destruct (row_profileName row), (row_amount row), (row_note row),
      (row_netflixEmail row), (row_accountType row);
      rewrite ?orString_Some, ?orNumber_Some; repeat split.
  - intros ->. cbn. apply app_nil_r.
Qed.

End ImportFacts.

(** ** Edges of the calendar *)

Module CalendarEdges.
Import Types JS App JSDate DateFacts StatusFacts HistoryFacts ExpiryFacts.
Import WindowFacts ViewFacts.

Local Open Scope list_scope.

(** X16.  A subscription that starts on one of the first 28 days of a
    month (local time) expires on the same day of the month, [monthsPaid]
    months later, at the same time of day on the local clock, provided the
    zone has that local time: the host reads it back unchanged (a local
    time that a daylight-saving change skips is moved). *)
Theorem expiry_keeps_day_of_month (LocalTZA : Z -> bool -> Z) (now : Z)
    (customer : Customer) (t e : Z) :
  parse (startDate customer) = Some t ->
  expiryDate (calculateSubscriptionDetails LocalTZA now customer) = Some e ->
  DateFromTime (LocalTime LocalTZA t) <= 28 ->
  let local := LocalTime LocalTZA t in
  let k := MonthFromTime local + monthsPaid customer in
  let shifted :=
    MakeDate (MakeDay (YearFromTime local) k (DateFromTime local))
             (TimeWithinDay local) in
  e = UTC LocalTZA shifted /\
  fieldsOf shifted = (YearFromTime local + k / 12, k mod 12, DateFromTime local) /\
  (LocalTime LocalTZA (UTC LocalTZA shifted) = shifted ->
   fieldsOf (LocalTime LocalTZA e)
   = (YearFromTime local + k / 12, k mod 12, DateFromTime local) /\
   TimeWithinDay (LocalTime LocalTZA e) = TimeWithinDay local).
Proof.
  intros Hp He Hd. cbv zeta.
  unfold calculateSubscriptionDetails in He. cbn [expiryDate] in He.
  rewrite Hp, setMonth_local in He.
  apply TimeClip_Some in He. destruct He as [He _].
  revert He Hd. generalize (LocalTime LocalTZA t). intros local He Hd.
  set (k := MonthFromTime local + monthsPaid customer) in *.
  pose proof (fields_range local) as [HM HD].
  pose proof (DaysInMonth_range (YearFromTime local) (MonthFromTime local) HM).
  pose proof (TimeWithinDay_range local) as HT.
  assert (fieldsOf (MakeDate (MakeDay (YearFromTime local) k (DateFromTime local))
                             (TimeWithinDay local))
          = (YearFromTime local + k / 12, k mod 12, DateFromTime local)) as HF.
  { unfold k. rewrite MakeDay_addMonths by (trivial; lia).
    unfold Spec.addMonths. fold k.
    pose proof (DaysInMonth_range (YearFromTime local + k / 12) (k mod 12)
                  ltac:(pose proof (Z.mod_pos_bound k 12); lia)).
    destruct (Z.leb_spec (DateFromTime local)
                (DaysInMonth (YearFromTime local + k / 12) (k mod 12)));
      [ reflexivity | lia ]. }
  split; [ exact He | ]. split; [ exact HF | ].
  rewrite He. intros ->. split; [ exact HF | ].
  now apply TimeWithinDay_MakeDate.
Qed.

(** In the zone [Samples.london2024] three months from 2024-01-15 end on
    15 April at 00:00 on the local clock, which is 2024-04-14T23:00Z. *)
Lemma expiry_keeps_day_of_month_witness :
  expiryDate (calculateSubscriptionDetails Samples.london2024 0
                (Samples.customerWith "1" "2024-01-15" 3)) = Some 1713135600000 /\
  fieldsOf (LocalTime Samples.london2024 1713135600000) = (2024, 3, 15) /\
  TimeWithinDay (LocalTime Samples.london2024 1713135600000) = 0.
Proof.
  split; [ reflexivity | ].
  apply (proj2 (proj2 (expiry_keeps_day_of_month Samples.london2024 0
                         (Samples.customerWith "1" "2024-01-15" 3)
                         1705276800000 1713135600000 eq_refl eq_refl
                         ltac:(vm_compute; discriminate)))).
  reflexivity.
Defined.

Lemma setHoursZero_Some LocalTZA now t :
  setHoursZero LocalTZA now = Some t ->
  t = UTC LocalTZA (Day (LocalTime LocalTZA now) * msPerDay).
Proof.
  unfold setHoursZero. intros H. apply TimeClip_Some in H.
  destruct H as [-> _]. unfold MakeDate. f_equal. lia.
Qed.

(** In a zone with a fixed offset today's local midnight does not go back
    as the clock advances. *)
Lemma setHoursZero_fixed_mono c a b ta tb :
  a <= b ->
  setHoursZero (fixedZone c) a = Some ta ->
  setHoursZero (fixedZone c) b = Some tb ->
  ta <= tb.
Proof.
  intros Hle H1 H2. apply setHoursZero_Some in H1, H2. subst.
  unfold UTC, LocalTime, fixedZone, Day, msPerDay.
  Z.div_mod_to_equations. lia.
Qed.

(** So it does in [Samples.london2024], across both changes of the
    offset. *)
Lemma london2024_midnight_mono a b ta tb :
  a <= b ->
  setHoursZero Samples.london2024 a = Some ta ->
  setHoursZero Samples.london2024 b = Some tb ->
  ta <= tb.
Proof.
  intros Hle H1 H2. apply setHoursZero_Some in H1, H2. subst.
  assert (Day (LocalTime Samples.london2024 a)
          <= Day (LocalTime Samples.london2024 b)) as HD.
  { unfold LocalTime, Day, msPerDay. london a. all: london b.
    all: Z.div_mod_to_equations; lia. }
  revert HD.
  generalize (Day (LocalTime Samples.london2024 a)).
  generalize (Day (LocalTime Samples.london2024 b)).
  intros d2 d1 HD. unfold UTC, msPerDay.
  london (d1 * 86400000). all: london (d2 * 86400000). all: lia.
Qed.

(** X17.  As the clock advances a subscription only moves towards
    Expired: once Expired it stays Expired, one that is Active later was
    Active before, and one expiring soon does not become Active again.
    This holds in every zone in which today's local midnight does not go
    back as the clock advances; the zones with a fixed offset are among
    them. *)
Theorem status_only_moves_towards_Expired (LocalTZA : Z -> bool -> Z)
    (now1 now2 : Z) (customer : Customer) (t1 t2 : Z) :
  (forall a b ta tb,
     a <= b -> setHoursZero LocalTZA a = Some ta ->
     setHoursZero LocalTZA b = Some tb -> ta <= tb) ->
  now1 <= now2 ->
  setHoursZero LocalTZA now1 = Some t1 ->
  setHoursZero LocalTZA now2 = Some t2 ->
  let s1 := status (calculateSubscriptionDetails LocalTZA now1 customer) in
  let s2 := status (calculateSubscriptionDetails LocalTZA now2 customer) in
  (s1 = Expired -> s2 = Expired) /\
  (s2 = Active -> s1 = Active) /\
  (s1 = ExpiringSoon -> s2 <> Active).
Proof.
  intros Hmono Hle H1 H2.
  assert (t1 <= t2) as Ht by exact (Hmono now1 now2 t1 t2 Hle H1 H2).
  destruct (expiryDate (calculateSubscriptionDetails LocalTZA now1 customer))
    as [e | ] eqn:E.
  - assert (expiryDate (calculateSubscriptionDetails LocalTZA now2 customer)
            = Some e) as E2 by exact E.
    pose proof (expired_iff_passed LocalTZA now1 customer e t1 E H1) as A1.
    pose proof (expired_iff_passed LocalTZA now2 customer e t2 E2 H2) as A2.
    pose proof (active_iff_far LocalTZA now1 customer e t1 E H1) as C1.
    pose proof (active_iff_far LocalTZA now2 customer e t2 E2 H2) as C2.
    cbv zeta. unfold msPerDay in *.
    split; [ | split ].
    + intros Hs. apply A2. apply A1 in Hs. lia.
    + intros Hs. apply C1. apply C2 in Hs. lia.
    + intros Hs Ha. apply C2 in Ha.
      assert (status (calculateSubscriptionDetails LocalTZA now1 customer)
              = Active) as Hc by (apply C1; lia).
      congruence.
  - (* an Invalid expiry date: the status is Active at both times *)
    cbv zeta. unfold calculateSubscriptionDetails in *. cbn [expiryDate] in E.
    cbn [status]. rewrite E. cbn. split; [ discriminate | ].
    split; [ reflexivity | discriminate ].
Qed.

(** In [Samples.london2024] the subscription that expires on 15 March is
    Expired on 16 March (winter time) and still on 10 June (summer time,
    today's midnight being 2024-06-09T23:00Z). *)
Lemma status_only_moves_towards_Expired_witness :
  setHoursZero Samples.london2024 Samples.june10 = Some 1717974000000 /\
  status (calculateSubscriptionDetails Samples.london2024 Samples.june10
            Samples.ann) = Expired.
Proof.
  split; [ reflexivity | ].
  apply (proj1 (status_only_moves_towards_Expired Samples.london2024
                  1710547200000 Samples.june10 Samples.ann
                  1710547200000 1717974000000 london2024_midnight_mono
                  ltac:(unfold Samples.june10; lia) eq_refl eq_refl)).
  reflexivity.
Defined.

(** X18.  Every row of the view is a stored customer with the details
    computed for it; the view has at most as many rows as there are
    customers, and exactly as many when both filters are "All". *)
Theorem view_shows_stored_customers (LocalTZA : Z -> bool -> Z) (now : Z)
    (customers : list Customer) (fs : StatusFilter) (fe : string)
    (sc : SortConfig) :
  let view :=
    displayCustomers (processedCustomers LocalTZA now customers) fs fe sc in
  (forall p, In p view ->
     In (base p) customers /\
     details p = calculateSubscriptionDetails LocalTZA now (base p)) /\
  (List.length view <= List.length customers)%nat /\
  (List.length
     (displayCustomers (processedCustomers LocalTZA now customers)
                       AllStatuses "All" sc)
   = List.length customers).
Proof.
  cbv zeta.
  pose proof (fun fs fe =>
                proj1 (displayCustomers_filter
                         (processedCustomers LocalTZA now customers) fs fe sc))
    as P.
  split; [ | split ].
  - intros p Hp. apply (Permutation_in _ (P fs fe)) in Hp.
    apply filter_In in Hp. destruct Hp as [Hp _].
    unfold processedCustomers in Hp. apply in_map_iff in Hp.
    destruct Hp as (c & <- & Hc). cbn. auto.
  - rewrite (Permutation_length (P fs fe)).
    etransitivity; [ apply filter_length_le | ].
    unfold processedCustomers. now rewrite length_map.
  - rewrite (Permutation_length (P AllStatuses "All")).
    clear P. unfold processedCustomers. cbn.
    induction customers as [ | c l IH ]; cbn; [ reflexivity | ].
    f_equal. exact IH.
Qed.

(** X19.  In a time zone east of UTC a customer whose start date is the
    last day of a month is not counted in that month: the start date is
    read as midnight UTC, which is later than the local midnight that
    begins the month's last day. *)
Theorem last_day_start_east_of_UTC (LocalTZA : Z -> bool -> Z)
    (customer : Customer) (t y m : Z) :
  parse (startDate customer) = Some t ->
  fieldsOf t = (y, m, DaysInMonth y m) ->
  100 <= y ->
  ((forall x b, 0 < LocalTZA x b) ->
   overlapsMonth LocalTZA y m customer = false) /\
  (forall now i,
     (forall x b, 0 < LocalTZA x b) ->
     getFullYear LocalTZA (firstOfMonth LocalTZA now i) = Some y ->
     getMonth LocalTZA (firstOfMonth LocalTZA now i) = Some m ->
     activeUsers (monthRecord LocalTZA now [customer] i) = 0).
Proof.
  intros Hp HF Hy.
  assert ((forall x b, 0 < LocalTZA x b) ->
          overlapsMonth LocalTZA y m customer = false) as H.
  { intros Hz.
    apply (last_day_start_not_counted LocalTZA customer t y m Hp HF Hy).
    apply Hz. }
  split; [ exact H | ].
  intros now i Hz Hyr Hmo.
  rewrite (monthRecord_overlap LocalTZA now [customer] i y m Hyr Hmo).
  cbn [activeUsers filter]. now rewrite (H Hz).
Qed.

Lemma last_day_start_east_of_UTC_witness :
  overlapsMonth (fixedZone 23400000) 2024 0 Samples.bob = false.
Proof.
  apply (proj1 (last_day_start_east_of_UTC (fixedZone 23400000) Samples.bob
                  1706659200000 2024 0 eq_refl eq_refl ltac:(lia))).
  intros x b. unfold fixedZone. lia.
Defined.

End CalendarEdges.
